(** * BatchEngine: the batch orchestration layer of promptflow

    A shallow embedding of [promptflow/executor/batch_engine.py] and the
    properties its specification states about it.

    - [Pathlib] models the part of [pathlib.PurePosixPath] the engine uses.
    - [Python] models the values the engine handles: immutable scalars,
      and list and dict objects that live in a store and are shared by
      reference, as Python shares them.
    - [Engine] is the code of [BatchEngine], method by method, over the
      collaborators it imports ([load_data], [resolve_image_path],
      [persist_multimedia_data], [FlowExecutor]), which are parameters.
    - [Doubles] gives executable stand-ins for the collaborators, and
      [Sample] a small batch to run the engine on.

    The properties follow the definitions, component by component. *)

From stdpp Require Import base strings list gmap.
From Stdlib Require Import ZArith Ascii.

(** ** pathlib *)

Module Pathlib.

(** The anchor of a POSIX path: none (a relative path), [/], or the
    implementation-defined [//] that POSIX keeps apart from [/]. *)
Inductive Root := Relative | Slash | DoubleSlash.

(** A [PurePosixPath]: its root and its components, in order. *)
Record Path := mkPath { root : Root; parts : list string }.

#[global] Instance Root_eq_dec : EqDecision Root.
Proof. solve_decision. Defined.

#[global] Instance Path_eq_dec : EqDecision Path.
Proof. solve_decision. Defined.

Definition root_code (r : Root) : nat :=
  match r with Relative => 0 | Slash => 1 | DoubleSlash => 2 end.

Definition root_of_code (n : nat) : Root :=
  match n with 0 => Relative | 1 => Slash | _ => DoubleSlash end.

#[global] Instance Path_countable : Countable Path.
Proof.
  refine (inj_countable' (λ p, (root_code (root p), parts p))
            (λ x, mkPath (root_of_code x.1) x.2) _).
  by intros [[] ?].
Defined.

(** [Path.is_absolute]: on POSIX, a path is absolute when it has a root. *)
Definition is_absolute (p : Path) : bool :=
  match root p with Relative => false | _ => true end.

(** [a / b]: an absolute right operand replaces the left one; a relative
    one is appended to it. *)
Definition truediv (a b : Path) : Path :=
  if is_absolute b then b else mkPath (root a) (parts a ++ parts b).

Definition is_slash (c : ascii) : bool := bool_decide (c = "/"%char).

(** [s.split("/")] *)
Fixpoint split_slash (s : string) : list string :=
  match s with
  | EmptyString => [""]
  | String c s' =>
      if is_slash c then "" :: split_slash s'
      else match split_slash s' with
           | x :: xs => String c x :: xs
           | [] => [String c ""]
           end
  end.

Fixpoint leading_slashes (s : string) : nat :=
  match s with
  | String c s' => if is_slash c then S (leading_slashes s') else 0
  | EmptyString => 0
  end.

(** One or three and more leading slashes make the root [/]; exactly two
    make [//]. *)
Definition parse_root (s : string) : Root :=
  match leading_slashes s with
  | 0 => Relative
  | 2 => DoubleSlash
  | _ => Slash
  end.

Definition is_component (x : string) : bool :=
  negb (bool_decide (x = "") || bool_decide (x = ".")).

(** [Path(s)]: empty components and [.] are dropped, [..] is kept. *)
Definition of_string (s : string) : Path :=
  mkPath (parse_root s) (filter (λ x, is_component x = true) (split_slash s)).

Fixpoint join_slash (l : list string) : string :=
  match l with
  | [] => ""
  | [x] => x
  | x :: l' => x +:+ "/" +:+ join_slash l'
  end.

(** [str(p)] *)
Definition to_string (p : Path) : string :=
  match root p, parts p with
  | Relative, [] => "."
  | Relative, l => join_slash l
  | Slash, l => "/" +:+ join_slash l
  | DoubleSlash, l => "//" +:+ join_slash l
  end.

End Pathlib.

Import Pathlib.

Declare Scope path_scope.
Delimit Scope path_scope with path.
Infix "/" := truediv : path_scope.
Bind Scope path_scope with Path.

(** A directory argument, [Union[str, Path]]. *)
Inductive StrOrPath :=
  | AStr (s : string)
  | APath (p : Path).

(** [dir if isinstance(dir, Path) else Path(dir)] *)
Definition as_path (dir : StrOrPath) : Path :=
  match dir with
  | APath p => p
  | AStr s => of_string s
  end.

(** [BatchEngine._resolve_dir]. [working_dir] is
    [self.flow_executor._working_dir]. *)
Definition _resolve_dir (working_dir : Path) (dir : StrOrPath) : Path :=
  let path := as_path dir in
  if negb (is_absolute path) then (working_dir / path)%path else path.

(** ** Python values and the store *)

Module Python.

(** Addresses of mutable objects. *)
Definition loc := positive.

(** A value is an immutable scalar or a reference to a list or dict
    object; two fields holding the same reference share one object. *)
Inductive val :=
  | VNone
  | VBool (b : bool)
  | VInt (n : Z)
  | VStr (s : string)
  | VRef (l : loc).

(** The nested objects a field can refer to. *)
Inductive obj :=
  | OList (items : list val)
  | ODict (entries : list (string * val)).

#[global] Instance val_eq_dec : EqDecision val.
Proof. solve_decision. Defined.

#[global] Instance obj_eq_dec : EqDecision obj.
Proof. solve_decision. Defined.

(** A dict keeps its entries in insertion order. [d[key] = v] replaces the
    value of an existing key where it stands and appends a new key. *)
Fixpoint dict_setitem {V : Type} (key : string) (v : V)
    (d : list (string * V)) : list (string * V) :=
  match d with
  | [] => [(key, v)]
  | (k, x) :: d' =>
      if decide (k = key) then (k, v) :: d'
      else (k, x) :: dict_setitem key v d'
  end.

(** [d.get(key)] *)
Fixpoint dict_get {V : Type} (key : string) (d : list (string * V)) : option V :=
  match d with
  | [] => None
  | (k, x) :: d' => if decide (k = key) then Some x else dict_get key d'
  end.

(** [list(d.keys())] *)
Definition dict_keys {V : Type} (d : list (string * V)) : list string := d.*1.

(** A scalar: a value that is not a reference to an object. *)
Definition is_scalar (v : val) : Prop :=
  match v with VRef _ => False | _ => True end.

(** The store. The records a source yields, its "lines", are the
    top-level dicts; each is an object of its own, and [rows] holds them
    apart from the nested lists and dicts their fields refer to, which
    are in [heap]. A field value refers to nested objects only: data read
    from files has no reference from inside a line back to the line. *)
Record Store := mkStore {
  rows : gmap loc (list (string * val));
  heap : gmap loc obj
}.

End Python.

Import Python.

(** ** The engine's world: store, file system, and the calls it makes *)

(** A file is its lines. *)
Abbreviation FS := (gmap Path (list string)).

Inductive exn :=
  | DataSourceError (msg : string)
  | MappingError (msg : string)
  | ExecutionError (msg : string)
  | PersistenceError (msg : string)
  | ReferenceError.

Inductive Result (A : Type) :=
  | Ok (a : A)
  | Raise (e : exn).
Arguments Ok {A} a.
Arguments Raise {A} e.

(** The calls to collaborators, in the order the engine makes them. *)
Inductive Event :=
  | Eload_data (dir : Path)
  | Eresolve_image_path (input_dir : Path) (value : val)
  | Evalidate_and_apply_inputs_mapping
      (inputs : list (string * list loc)) (inputs_mapping : list (string * string))
  | Eexec_bulk (inputs : list loc) (run_id : option string) (output_dir : Path)
  | Epersist_multimedia_data (value : loc) (base_dir : Path)
  | Edump_list_to_jsonl (file_path : Path) (list_data : list loc).

Record State := mkState {
  store : Store;
  fs : FS;
  trace : list Event
}.

(** Computations of the engine: they read and update the state, and
    return a value or raise. *)
Definition M (A : Type) : Type := State → Result A * State.

#[global] Instance M_ret : MRet M := λ A a s, (Ok a, s).

#[global] Instance M_bind : MBind M := λ A B f m s,
  match m s with
  | (Ok a, s') => f a s'
  | (Raise e, s') => (Raise e, s')
  end.

Definition log (e : Event) (s : State) : State :=
  mkState (store s) (fs s) (trace s ++ [e]).

(** [for x in l: f(x)] *)
Fixpoint for_each {A : Type} (f : A → M unit) (l : list A) : M unit :=
  match l with
  | [] => mret ()
  | x :: l' => f x;; for_each f l'
  end.

(** [[f(x) for x in l]] *)
Fixpoint comprehension {A B : Type} (f : A → M B) (l : list A) : M (list B) :=
  match l with
  | [] => mret []
  | x :: l' => y ← f x; ys ← comprehension f l'; mret (y :: ys)
  end.

(** [BulkResult] of [promptflow.executor._result]: the output lines and
    the rest of what the executor reports (line results, aggregation
    results, metrics), which the engine never reads. *)
Record BulkResult (Meta : Type) := mkBulkResult {
  outputs : list loc;
  metadata : Meta
}.
Arguments mkBulkResult {Meta} outputs metadata.
Arguments outputs {Meta} b.
Arguments metadata {Meta} b.

(** [batch_result.outputs = v] *)
Definition set_outputs {Meta : Type} (v : list loc) (b : BulkResult Meta) :
    BulkResult Meta :=
  mkBulkResult v (metadata b).

Definition OUTPUT_FILE_NAME : string := "output.jsonl".

(** How a field value is dispatched on: [isinstance(value, list)], with
    the items the list holds, [isinstance(value, dict)], or neither. *)
Inductive kind :=
  | KList (items : list val)
  | KDict
  | KOther.

Definition kind_in (h : gmap loc obj) (value : val) : kind :=
  match value with
  | VRef l =>
      match h !! l with
      | Some (OList items) => KList items
      | Some (ODict _) => KDict
      | None => KOther
      end
  | _ => KOther
  end.

Module Engine.
Section Engine.

(** *** Collaborators

    The code the engine imports. Each is handed the part of the world its
    contract lets it act on. The loader reads the file system and works
    in the store, and the mapper works in the store. The media resolver
    is given a base directory and a nested value: it reads the file
    system and works on the nested objects, which it may rewrite in place
    or leave alone, and returns a value. The executor and the media
    persister may also write files. Any of them but the resolver may
    raise. *)
Context {Meta : Type}.
Context (working_dir : Path).
Context (load_data : Path → FS → Store → Result (list loc) * Store).
Context (resolve_image_path :
  Path → val → FS → gmap loc obj → val * gmap loc obj).
Context (validate_and_apply_inputs_mapping :
  list (string * list loc) → list (string * string) → Store →
  Result (list loc) * Store).
Context (exec_bulk :
  list loc → option string → Path → Store * FS →
  Result (BulkResult Meta) * (Store * FS)).
Context (persist_multimedia_data :
  loc → Path → Store * FS → Result loc * (Store * FS)).
Context (json_dumps : Store → loc → string).
Context (writable : FS → Path → bool).

Definition call_load_data (dir : Path) : M (list loc) := λ s,
  let '(r, st) := load_data dir (fs s) (store s) in
  (r, mkState st (fs s) (trace s ++ [Eload_data dir])).

Definition call_resolve_image_path (input_dir : Path) (value : val) : M val :=
  λ s,
  let '(v, h) := resolve_image_path input_dir value (fs s) (heap (store s)) in
  (Ok v, mkState (mkStore (rows (store s)) h) (fs s)
           (trace s ++ [Eresolve_image_path input_dir value])).

(** A property of the nested objects that no call of the resolver breaks. *)
Definition kept_by_resolver (J : gmap loc obj → Prop) : Prop :=
  ∀ input_dir value f h, J h → J (resolve_image_path input_dir value f h).2.

(** The resolver leaves the objects that exist as they are: it returns
    its result and may allocate, and rewrites nothing in place. *)
Definition resolver_returns_only : Prop :=
  ∀ input_dir value f h l o,
    h !! l = Some o → (resolve_image_path input_dir value f h).2 !! l = Some o.

Definition call_validate_and_apply_inputs_mapping
    (inputs : list (string * list loc)) (inputs_mapping : list (string * string)) :
    M (list loc) := λ s,
  let '(r, st) := validate_and_apply_inputs_mapping inputs inputs_mapping (store s) in
  (r, mkState st (fs s)
        (trace s ++ [Evalidate_and_apply_inputs_mapping inputs inputs_mapping])).

Definition call_exec_bulk (inputs : list loc) (run_id : option string)
    (output_dir : Path) : M (BulkResult Meta) := λ s,
  let '(r, (st, f)) := exec_bulk inputs run_id output_dir (store s, fs s) in
  (r, mkState st f (trace s ++ [Eexec_bulk inputs run_id output_dir])).

(** The state [exec_bulk] leaves behind, in which [run] goes on. *)
Definition after_execution (inputs : list loc) (run_id : option string)
    (output_dir : Path) (s : State) : State :=
  (call_exec_bulk inputs run_id output_dir s).2.

Definition call_persist_multimedia_data (value : loc) (base_dir : Path) : M loc :=
  λ s,
  let '(r, (st, f)) := persist_multimedia_data value base_dir (store s, fs s) in
  (r, mkState st f (trace s ++ [Epersist_multimedia_data value base_dir])).

(** Modelled from the spec: [dump_list_to_jsonl] of [promptflow._utils.utils],
    which is not among the sources. It serializes the sequence as one
    JSON object per line, in order, into the file, which is rewritten in
    full and not appended to; a write that the disk refuses is a
    persistence error. [json_dumps] is the JSON encoder. *)
Definition dump_list_to_jsonl (file_path : Path) (list_data : list loc) : M unit :=
  λ s,
  let s' := log (Edump_list_to_jsonl file_path list_data) s in
  if writable (fs s) file_path then
    (Ok (), mkState (store s')
              (<[file_path := json_dumps (store s) <$> list_data]> (fs s'))
              (trace s'))
  else (Raise (PersistenceError (to_string file_path)), s').

(** [one_line_data.items()], the entries the loop goes through. *)
Definition row_items (one_line_data : loc) : M (list (string * val)) := λ s,
  match rows (store s) !! one_line_data with
  | Some d => (Ok d, s)
  | None => (Raise ReferenceError, s)
  end.

(** [one_line_data[key] = v] *)
Definition row_setitem (one_line_data : loc) (key : string) (v : val) : M unit :=
  λ s,
  match rows (store s) !! one_line_data with
  | Some d =>
      (Ok (), mkState
                (mkStore (<[one_line_data := dict_setitem key v d]> (rows (store s)))
                   (heap (store s)))
                (fs s) (trace s))
  | None => (Raise ReferenceError, s)
  end.

Definition kind_of (value : val) : M kind := λ s,
  (Ok (kind_in (heap (store s)) value), s).

(** The body of the loop of [_resolve_image], for one entry of the line.
    The inner loop goes through the items the list holds when it starts. *)
Definition _resolve_image_entry (input_dir : Path) (one_line_data : loc)
    (entry : string * val) : M unit :=
  let '(key, value) := entry in
  k ← kind_of value;
  match k with
  | KList items =>
      for_each (λ item,
        (* the result is bound to the loop variable [item] and dropped *)
        _ ← call_resolve_image_path input_dir item; mret ()) items;;
      row_setitem one_line_data key value
  | KDict =>
      v ← call_resolve_image_path input_dir value;
      row_setitem one_line_data key v
  | KOther => mret ()
  end.

(** [BatchEngine._resolve_image] *)
Definition _resolve_image (input_dir : Path) (one_line_data : loc) : M loc :=
  items ← row_items one_line_data;
  for_each (_resolve_image_entry input_dir one_line_data) items;;
  mret one_line_data.

(** The loop of [_resolve_data] over [input_dirs.items()], with [result]
    the dict built so far. *)
Fixpoint _resolve_data_loop (items : list (string * StrOrPath))
    (result : list (string * list loc)) : M (list (string * list loc)) :=
  match items with
  | [] => mret result
  | (input_key, input_dir) :: items' =>
      let input_dir := _resolve_dir working_dir input_dir in
      file_data ← call_load_data input_dir;
      for_each (λ each_line,
        _ ← _resolve_image input_dir each_line; mret ()) file_data;;
      _resolve_data_loop items' (dict_setitem input_key file_data result)
  end.

(** [BatchEngine._resolve_data] *)
Definition _resolve_data (input_dirs : list (string * StrOrPath)) :
    M (list (string * list loc)) :=
  _resolve_data_loop input_dirs [].

(** [BatchEngine._get_input_dicts] *)
Definition _get_input_dicts (input_dirs : list (string * StrOrPath))
    (inputs_mapping : list (string * string)) : M (list loc) :=
  input_dicts ← _resolve_data input_dirs;
  call_validate_and_apply_inputs_mapping input_dicts inputs_mapping.

(** [BatchEngine._persist_outputs] *)
Definition _persist_outputs (outputs : list loc) (output_dir : Path) :
    M (list loc) :=
  outputs ← comprehension
    (λ output, call_persist_multimedia_data output output_dir) outputs;
  let output_file := (output_dir / of_string OUTPUT_FILE_NAME)%path in
  dump_list_to_jsonl output_file outputs;;
  mret outputs.

(** [BatchEngine.run] *)
Definition run (input_dirs : list (string * StrOrPath))
    (inputs_mapping : list (string * string)) (output_dir : StrOrPath)
    (run_id : option string) : M (BulkResult Meta) :=
  input_dicts ← _get_input_dicts input_dirs inputs_mapping;
  let output_dir := _resolve_dir working_dir output_dir in
  batch_result ← call_exec_bulk input_dicts run_id output_dir;
  outs ← _persist_outputs (outputs batch_result) output_dir;
  mret (set_outputs outs batch_result).

(** *** What the loader does, step by step

    [lines_resolved input_dir s lines s']: each of [lines], in order, has
    gone through [_resolve_image] with [input_dir] as base, and each call
    returned the line it was given. *)
Inductive lines_resolved (input_dir : Path) : State → list loc → State → Prop :=
  | lines_resolved_nil s :
      lines_resolved input_dir s [] s
  | lines_resolved_cons s s1 s2 line lines :
      _resolve_image input_dir line s = (Ok line, s1) →
      lines_resolved input_dir s1 lines s2 →
      lines_resolved input_dir s (line :: lines) s2.

(** [sources_resolved s input_dirs s']: for each source in order, its
    directory has been resolved against the working directory, the
    loader has been called on it, and every line the loader returned has
    been resolved with that directory as base. *)
Inductive sources_resolved :
    State → list (string * StrOrPath) → State → Prop :=
  | sources_resolved_nil s :
      sources_resolved s [] s
  | sources_resolved_cons s s1 s2 s3 input_key input_dir file_data input_dirs :
      call_load_data (_resolve_dir working_dir input_dir) s = (Ok file_data, s1) →
      lines_resolved (_resolve_dir working_dir input_dir) s1 file_data s2 →
      sources_resolved s2 input_dirs s3 →
      sources_resolved s ((input_key, input_dir) :: input_dirs) s3.

(** [persisted base_dir w outputs outputs' w']: [outputs'] holds, for
    each record of [outputs] in order, what [persist_multimedia_data]
    returned for it; the calls were made one after the other, from the
    world [w] to the world [w']. *)
Inductive persisted (base_dir : Path) :
    Store * FS → list loc → list loc → Store * FS → Prop :=
  | persisted_nil w :
      persisted base_dir w [] [] w
  | persisted_cons w w1 w2 output output' outputs outputs' :
      persist_multimedia_data output base_dir w = (Ok output', w1) →
      persisted base_dir w1 outputs outputs' w2 →
      persisted base_dir w (output :: outputs) (output' :: outputs') w2.

End Engine.
End Engine.

Import Engine.

(** The calls that come before execution: loading, media resolution and
    input mapping. *)
Definition before_execution (e : Event) : Prop :=
  match e with
  | Eload_data _ | Eresolve_image_path _ _
  | Evalidate_and_apply_inputs_mapping _ _ => True
  | Eexec_bulk _ _ _ | Epersist_multimedia_data _ _
  | Edump_list_to_jsonl _ _ => False
  end.

(** A call of the media resolver with [input_dir] as base. *)
Definition calls_resolver_at (input_dir : Path) (e : Event) : Prop :=
  ∃ value, e = Eresolve_image_path input_dir value.

(** What the loop of [_resolve_image] keeps, from the state [s0] in which
    it starts: the line stays where it is, with the same field names in
    the same order; the fields picked by [Q] keep their values; no file
    is touched; the nested objects keep the property [J]; other lines
    are left alone; the calls made are calls of the resolver with
    [input_dir] as base. *)
Definition resolve_image_inv (J : gmap loc obj → Prop) (Q : val → Prop)
    (input_dir : Path) (one_line_data : loc)
    (s0 s : State) : Prop :=
  (∃ d0 d, rows (store s0) !! one_line_data = Some d0
     ∧ rows (store s) !! one_line_data = Some d
     ∧ dict_keys d = dict_keys d0
     ∧ (NoDup (dict_keys d0) →
        ∀ key v, dict_get key d0 = Some v → Q v → dict_get key d = Some v))
  ∧ fs s = fs s0
  ∧ J (heap (store s))
  ∧ (∀ r, r ≠ one_line_data → rows (store s) !! r = rows (store s0) !! r)
  ∧ ∃ evs, trace s = trace s0 ++ evs
      ∧ Forall (calls_resolver_at input_dir) evs.

(** ** Stand-ins for the collaborators *)

Module Doubles.

Definition is_image_path_key (k : string) : bool :=
  String.prefix "data:image/" k && String.prefix (String.rev ";path") (String.rev k).

(** A media reference: a dict with the single entry
    [{"data:image/<type>;path": <path>}]. *)
Definition media_reference (o : obj) : option (string * string) :=
  match o with
  | ODict [(k, VStr p)] => if is_image_path_key k then Some (k, p) else None
  | _ => None
  end.

Definition resolved_reference (input_dir : Path) (k p : string) : obj :=
  ODict [(k, VStr (to_string (input_dir / of_string p)%path))].

(** Modelled from the spec: the media-utility contract [resolve_image_path],
    which "accepts (base-directory, value) and returns the value with any
    embedded path pointer made absolute". This one returns the resolved
    reference as a new dict and leaves its argument as it was. *)
Definition resolve_returning (input_dir : Path) (value : val) (f : FS)
    (h : gmap loc obj) : val * gmap loc obj :=
  match value with
  | VRef l =>
      match h !! l ≫= media_reference with
      | Some (k, p) =>
          let l' := fresh (dom h) in
          (VRef l', <[l' := resolved_reference input_dir k p]> h)
      | None => (value, h)
      end
  | _ => (value, h)
  end.

(** Modelled from the spec: the same contract, met by rewriting the
    reference where it is and returning the argument. *)
Definition resolve_in_place (input_dir : Path) (value : val) (f : FS)
    (h : gmap loc obj) : val * gmap loc obj :=
  match value with
  | VRef l =>
      match h !! l ≫= media_reference with
      | Some (k, p) => (value, <[l := resolved_reference input_dir k p]> h)
      | None => (value, h)
      end
  | _ => (value, h)
  end.

(** A loader that yields, for each known directory, lines already in the
    store, and fails on any other directory. *)
Definition load_table (table : list (Path * list loc)) (dir : Path) (f : FS)
    (st : Store) : Result (list loc) * Store :=
  match list_find (λ e, e.1 = dir) table with
  | Some (_, (_, lines)) => (Ok lines, st)
  | None => (Raise (DataSourceError (to_string dir)), st)
  end.

(** A mapper that takes each flow input from a named source: it fails on
    a source that was not loaded, and yields the lines of the first one. *)
Definition map_sources (inputs : list (string * list loc))
    (inputs_mapping : list (string * string)) (st : Store) :
    Result (list loc) * Store :=
  match list_find (λ m, dict_get m.2 inputs = None) inputs_mapping with
  | Some (_, (_, source)) => (Raise (MappingError source), st)
  | None =>
      (Ok (match inputs_mapping with
           | (_, source) :: _ => default [] (dict_get source inputs)
           | [] => []
           end), st)
  end.

(** An executor whose flow echoes its input line; it reports how many
    lines it ran. *)
Definition exec_echo (inputs : list loc) (run_id : option string)
    (output_dir : Path) (w : Store * FS) : Result (BulkResult nat) * (Store * FS) :=
  (Ok (mkBulkResult inputs (length inputs)), w).

(** A persister that returns a copy of the line as a new record. *)
Definition persist_copy (value : loc) (base_dir : Path) (w : Store * FS) :
    Result loc * (Store * FS) :=
  match rows w.1 !! value with
  | Some d =>
      let l := fresh (dom (rows w.1)) in
      (Ok l, (mkStore (<[l := d]> (rows w.1)) (heap w.1), w.2))
  | None => (Raise (PersistenceError "no such line"), w)
  end.

(** An encoder that writes the field names of a line. *)
Definition dumps_keys (st : Store) (o : loc) : string :=
  match rows st !! o with
  | Some d => "{" +:+ String.concat "," (dict_keys d) +:+ "}"
  | None => "null"
  end.

Definition always_writable (f : FS) (p : Path) : bool := true.

End Doubles.

(** ** A small batch

    Two sources under the flow directory [/work/flow]: [docs], given by
    a relative path, with one line that has a text, a list of images and
    a photo; and [images], given by an absolute path, with one line that
    has a picture. The output directory already holds an [output.jsonl]
    from an earlier run. *)

Module Sample.

Import Doubles.

Definition working_dir : Path := of_string "/work/flow".

Definition docs : Path := of_string "/work/flow/data/docs".

Definition images : Path := of_string "/mnt/images".

Definition out : Path := of_string "/work/flow/out".

Definition logo : obj := ODict [("data:image/png;path", VStr "logo.png")].

Definition cat : obj := ODict [("data:image/png;path", VStr "cat.png")].

Definition dog : obj := ODict [("data:image/jpg;path", VStr "dog.jpg")].

Definition objects : gmap loc obj :=
  {[ 1%positive := logo;
     2%positive := OList [VRef 1%positive; VStr "caption"];
     3%positive := cat;
     4%positive := dog ]}.

Definition doc_line : list (string * val) :=
  [("text", VStr "hello"); ("images", VRef 2%positive); ("photo", VRef 3%positive)].

Definition image_line : list (string * val) := [("pic", VRef 4%positive)].

Definition lines : gmap loc (list (string * val)) :=
  {[ 10%positive := doc_line; 11%positive := image_line ]}.

Definition files : FS :=
  {[ of_string "/work/flow/out/output.jsonl" := ["stale"; "stale"; "stale"] ]}.

Definition state : State := mkState (mkStore lines objects) files [].

Definition table : list (Path * list loc) :=
  [(docs, [10%positive]); (images, [11%positive])].

Definition input_dirs : list (string * StrOrPath) :=
  [("docs", AStr "data/docs"); ("images", AStr "/mnt/images")].

Definition inputs_mapping : list (string * string) :=
  [("question", "docs"); ("photo", "images")].

Definition bad_mapping : list (string * string) :=
  [("question", "missing_source")].

(** The engine with the stand-ins for its collaborators. *)
Definition load_all : M (list (string * list loc)) :=
  _resolve_data working_dir (load_table table) resolve_in_place input_dirs.

Definition persist_all : M (list loc) :=
  _persist_outputs persist_copy dumps_keys always_writable
    [10%positive; 11%positive] out.

Definition run_batch (inputs_mapping : list (string * string)) :
    M (BulkResult nat) :=
  run working_dir (load_table table) resolve_in_place map_sources
    exec_echo persist_copy dumps_keys always_writable
    input_dirs inputs_mapping (AStr "out") (Some "run-1").

End Sample.

(** ** What the media resolver may do to the nested objects *)

(** The resolver keeps every list as it is. *)
Definition resolver_keeps_lists
    (resolve_image_path : Path → val → FS → gmap loc obj → val * gmap loc obj) :
    Prop :=
  ∀ input_dir value f h l items,
    h !! l = Some (OList items) →
    (resolve_image_path input_dir value f h).2 !! l = Some (OList items).

(** The resolver keeps every dict a dict; it may rewrite its entries. *)
Definition resolver_keeps_dicts
    (resolve_image_path : Path → val → FS → gmap loc obj → val * gmap loc obj) :
    Prop :=
  ∀ input_dir value f h l entries,
    h !! l = Some (ODict entries) →
    ∃ entries', (resolve_image_path input_dir value f h).2 !! l
                = Some (ODict entries').

(** A value that is a scalar or refers to an object that exists. *)
Definition allocated (h : gmap loc obj) (v : val) : Prop :=
  match v with
  | VRef l => is_Some (h !! l)
  | _ => True
  end.

(** The objects of [h0] have in [h] the shape they had: the lists are the
    same lists, the dicts are dicts. *)
Definition same_shape (h0 h : gmap loc obj) : Prop :=
  ∀ l,
    (∀ items, h0 !! l = Some (OList items) → h !! l = Some (OList items))
    ∧ (∀ entries, h0 !! l = Some (ODict entries) →
       ∃ entries', h !! l = Some (ODict entries')).

(** The calls of the resolver that one entry of a line gives rise to,
    going by the objects in [h]: one per item of a list, one for a
    nested mapping, none for anything else. *)
Definition resolver_calls_for (h : gmap loc obj) (input_dir : Path)
    (entry : string * val) : list Event :=
  match kind_in h entry.2 with
  | KList items => Eresolve_image_path input_dir <$> items
  | KDict => [Eresolve_image_path input_dir entry.2]
  | KOther => []
  end.

(** The calls that load the sources: loads and media resolutions. *)
Definition while_loading (e : Event) : Prop :=
  match e with
  | Eload_data _ | Eresolve_image_path _ _ => True
  | _ => False
  end.

(** ** Collaborators that fail, and more of the small batch *)

Module Failing.

Import Doubles.

(** An executor whose flow cannot run. *)
Definition exec_refusing (inputs : list loc) (run_id : option string)
    (output_dir : Path) (w : Store * FS) : Result (BulkResult nat) * (Store * FS) :=
  (Raise (ExecutionError "flow failed"), w).

(** A persister that fails on one line and copies the others. *)
Definition persist_copy_except (bad : loc) (value : loc) (base_dir : Path)
    (w : Store * FS) : Result loc * (Store * FS) :=
  if decide (value = bad) then (Raise (PersistenceError "disk full"), w)
  else persist_copy value base_dir w.

End Failing.

Module More.

Import Doubles Sample Failing.

(** A source directory that the loader does not know, between the two
    it knows. *)
Definition ghost_dirs : list (string * StrOrPath) :=
  [("docs", AStr "data/docs"); ("ghost", AStr "nowhere");
   ("images", AStr "/mnt/images")].

(** The state once the first source has been loaded and resolved. *)
Definition after_docs : State :=
  (_resolve_data working_dir (load_table table) resolve_in_place
     [("docs", AStr "data/docs")] state).2.

Definition run_ghost : M (BulkResult nat) :=
  run working_dir (load_table table) resolve_in_place map_sources
    exec_echo persist_copy dumps_keys always_writable
    ghost_dirs inputs_mapping (AStr "out") (Some "run-1").

Definition mapped : M (list loc) :=
  _get_input_dicts working_dir (load_table table) resolve_in_place map_sources
    input_dirs inputs_mapping.

Definition run_refused : M (BulkResult nat) :=
  run working_dir (load_table table) resolve_in_place map_sources
    exec_refusing persist_copy dumps_keys always_writable
    input_dirs inputs_mapping (AStr "out") (Some "run-1").

(** The first output persisted, with a persister that fails on the
    second. *)
Definition first_persisted : M (list loc) :=
  comprehension
    (λ output, call_persist_multimedia_data (persist_copy_except 11%positive)
                 output out)
    [10%positive].

Definition persist_failing : M (list loc) :=
  _persist_outputs (persist_copy_except 11%positive) dumps_keys always_writable
    [10%positive; 11%positive; 10%positive] out.

End More.

(** ** Media references resolved in place *)



(** [dir] is the base directory of no call of the media resolver among
    [evs]. *)
Definition never_base (dir : Path) (evs : list Event) : Prop :=
  ∀ value, Eresolve_image_path dir value ∉ evs.

(** ** Sources in the working directory and in the output directory *)

Module Scoping.

Import Doubles Sample.

(** One source bound to [.], the working directory itself, and one bound
    to the directory the run writes its outputs to. *)
Definition here_dirs : list (string * StrOrPath) :=
  [("here", AStr "."); ("results", AStr "out")].

Definition here_table : list (Path * list loc) :=
  [(working_dir, [10%positive]); (out, [11%positive])].

Definition here_mapping : list (string * string) :=
  [("question", "here"); ("photo", "results")].

Definition load_here : M (list (string * list loc)) :=
  _resolve_data working_dir (load_table here_table) resolve_in_place here_dirs.

Definition run_here : M (BulkResult nat) :=
  run working_dir (load_table here_table) resolve_in_place map_sources
    exec_echo persist_copy dumps_keys always_writable
    here_dirs here_mapping (AStr "out") (Some "run-1").

End Scoping.

(** * Properties *)

(** ** Running computations *)

Lemma bind_run {A B : Type} (m : M A) (f : A → M B) (s : State) :
  (m ≫= f) s =
  match m s with
  | (Ok a, s') => f a s'
  | (Raise e, s') => (Raise e, s')
  end.
Proof. reflexivity. Qed.

Lemma ret_run {A : Type} (a : A) (s : State) : (mret a : M A) s = (Ok a, s).
Proof. reflexivity. Qed.

Lemma bind_Ok_inv {A B : Type} (m : M A) (f : A → M B) (s s' : State) (b : B) :
  (m ≫= f) s = (Ok b, s') →
  ∃ a s1, m s = (Ok a, s1) ∧ f a s1 = (Ok b, s').
Proof.
  rewrite bind_run. destruct (m s) as [[a|e] s1]; [eauto | discriminate].
Qed.

Lemma for_each_cons {A : Type} (f : A → M unit) (x : A) (l : list A) (s : State) :
  for_each f (x :: l) s =
  match f x s with
  | (Ok _, s') => for_each f l s'
  | (Raise e, s') => (Raise e, s')
  end.
Proof. reflexivity. Qed.

(** When every step succeeds and keeps an invariant, so does the loop. *)
Lemma for_each_ok {A : Type} (I : State → Prop) (f : A → M unit)
    (l : list A) (s : State) :
  (∀ x s, x ∈ l → I s → ∃ s', f x s = (Ok (), s') ∧ I s') →
  I s → ∃ s', for_each f l s = (Ok (), s') ∧ I s'.
Proof.
  revert s. induction l as [|x l IH]; intros s Hstep Hs; [by exists s|].
  rewrite for_each_cons.
  destruct (Hstep x s (list_elem_of_here _ _) Hs) as (s1 & -> & Hs1).
  apply IH; [|done]. intros y t Hy. apply Hstep. by right.
Qed.

(** ** Dicts *)

Lemma dict_keys_setitem {V : Type} (key : string) (v : V) (d : list (string * V)) :
  key ∈ dict_keys d → dict_keys (dict_setitem key v d) = dict_keys d.
Proof.
  unfold dict_keys. induction d as [|[k x] d IH]; simpl.
  - by intros ?%elem_of_nil.
  - intros Hin. case_decide; simpl; [done|].
    f_equal. apply IH. apply elem_of_cons in Hin as [->|]; done.
Qed.

Lemma dict_get_setitem_eq {V : Type} (key : string) (v : V) (d : list (string * V)) :
  dict_get key (dict_setitem key v d) = Some v.
Proof.
  induction d as [|[k x] d IH]; simpl.
  - by rewrite decide_True.
  - case_decide; simpl; [by rewrite decide_True | by rewrite decide_False].
Qed.

Lemma dict_get_setitem_ne {V : Type} (key key' : string) (v : V)
    (d : list (string * V)) :
  key ≠ key' → dict_get key' (dict_setitem key v d) = dict_get key' d.
Proof.
  intros Hne. induction d as [|[k x] d IH]; simpl.
  - by rewrite decide_False.
  - destruct (decide (k = key)) as [->|]; simpl.
    + by rewrite !decide_False.
    + by rewrite IH.
Qed.

(** In a dict, where no key occurs twice, an entry is what [get] finds. *)
Lemma elem_of_dict_get {V : Type} (key : string) (v : V) (d : list (string * V)) :
  NoDup (dict_keys d) → (key, v) ∈ d → dict_get key d = Some v.
Proof.
  unfold dict_keys. induction d as [|[k x] d IH]; simpl.
  - by intros _ ?%elem_of_nil.
  - intros [Hk Hd]%NoDup_cons [[= -> ->]|Hin]%elem_of_cons.
    + by rewrite decide_True.
    + rewrite decide_False; [auto|]. intros ->. apply Hk.
      apply list_elem_of_fmap. by exists (key, v).
Qed.

(** ** The path resolver, [_resolve_dir] *)

Example of_string_normalises :
  of_string "/data//inputs/./a/" = mkPath Slash ["data"; "inputs"; "a"].
Proof. reflexivity. Qed.

Example resolve_dir_relative :
  to_string (_resolve_dir (of_string "/work/flow") (AStr "data/inputs"))
  = "/work/flow/data/inputs".
Proof. reflexivity. Qed.

Lemma is_absolute_truediv (a b : Path) :
  is_absolute (a / b)%path = is_absolute a || is_absolute b.
Proof.
  unfold truediv. destruct (is_absolute b) eqn:Hb.
  - by rewrite Hb, orb_true_r.
  - by rewrite orb_false_r.
Qed.

Lemma resolve_dir_is_absolute (working_dir : Path) (dir : StrOrPath) :
  is_absolute working_dir = true →
  is_absolute (_resolve_dir working_dir dir) = true.
Proof.
  intros Hwd. unfold _resolve_dir.
  destruct (is_absolute (as_path dir)) eqn:Hd; simpl; [done|].
  by rewrite is_absolute_truediv, Hwd.
Qed.

(** C6. [_resolve_dir] returns an absolute path unchanged and resolves a
    relative one against the working directory; when the working
    directory is absolute the result is absolute, so resolving it again
    changes nothing. *)
Theorem resolve_dir_idempotent (working_dir : Path) (dir : StrOrPath) :
  (is_absolute (as_path dir) = true →
     _resolve_dir working_dir dir = as_path dir) ∧
  (is_absolute (as_path dir) = false →
     _resolve_dir working_dir dir = (working_dir / as_path dir)%path) ∧
  (is_absolute working_dir = true →
     _resolve_dir working_dir (APath (_resolve_dir working_dir dir))
     = _resolve_dir working_dir dir).
Proof.
  split_and!.
  - intros H. unfold _resolve_dir. by rewrite H.
  - intros H. unfold _resolve_dir. by rewrite H.
  - intros Hwd.
    pose proof (resolve_dir_is_absolute working_dir dir Hwd) as Habs.
    unfold _resolve_dir at 1. simpl. by rewrite Habs.
Qed.

(** ** The media reference resolver, [_resolve_image] *)

Section ResolveImage.

Context (resolve_image_path :
  Path → val → FS → gmap loc obj → val * gmap loc obj).

Local Abbreviation call_resolve := (call_resolve_image_path resolve_image_path).
Local Abbreviation resolve_entry := (_resolve_image_entry resolve_image_path).
Local Abbreviation resolve_image := (_resolve_image resolve_image_path).

Lemma call_resolve_run (input_dir : Path) (value : val) (s : State) :
  call_resolve input_dir value s =
  (Ok (resolve_image_path input_dir value (fs s) (heap (store s))).1,
   mkState
     (mkStore (rows (store s))
        (resolve_image_path input_dir value (fs s) (heap (store s))).2)
     (fs s) (trace s ++ [Eresolve_image_path input_dir value])).
Proof.
  unfold call_resolve_image_path.
  by destruct (resolve_image_path input_dir value (fs s) (heap (store s))).
Qed.

(** The inner loop, [for item in value: item = resolve_image_path(...)]:
    one call per item, in order; nothing is stored. *)
Lemma resolve_items_spec (J : gmap loc obj → Prop) (input_dir : Path)
    (items : list val) (s : State) :
  kept_by_resolver resolve_image_path J → J (heap (store s)) →
  ∃ s', for_each (λ item, _ ← call_resolve input_dir item; mret ()) items s
        = (Ok (), s')
    ∧ rows (store s') = rows (store s)
    ∧ fs s' = fs s
    ∧ trace s' = trace s ++ (Eresolve_image_path input_dir <$> items)
    ∧ J (heap (store s')).
Proof.
  intros HJ. revert s. induction items as [|item items IH]; intros s Hs.
  - exists s. by rewrite app_nil_r.
  - rewrite for_each_cons, bind_run, call_resolve_run.
    pose proof (HJ input_dir item (fs s) (heap (store s)) Hs) as Hs1.
    cbv beta iota. rewrite ret_run.
    match goal with |- context [for_each _ items ?t] =>
      destruct (IH t) as (s' & Hrun & Hrows & Hfs & Htrace & HJ')
    end; [exact Hs1|].
    exists s'. split; [exact Hrun|]. simpl in *.
    split_and!; try done. by rewrite Htrace, <- app_assoc.
Qed.

(** One round of the loop of [_resolve_image], on a line that exists. *)
Lemma resolve_entry_spec (J : gmap loc obj → Prop) (input_dir : Path)
    (one_line_data : loc) (key : string) (value : val) (s : State)
    (d : list (string * val)) :
  kept_by_resolver resolve_image_path J → J (heap (store s)) →
  rows (store s) !! one_line_data = Some d →
  ∃ s', resolve_entry input_dir one_line_data (key, value) s = (Ok (), s')
    ∧ fs s' = fs s
    ∧ J (heap (store s'))
    ∧ match kind_in (heap (store s)) value with
      | KList items =>
          rows (store s')
            = <[one_line_data := dict_setitem key value d]> (rows (store s))
          ∧ trace s' = trace s ++ (Eresolve_image_path input_dir <$> items)
      | KDict =>
          rows (store s')
            = <[one_line_data :=
                  dict_setitem key
                    (resolve_image_path input_dir value (fs s) (heap (store s))).1 d]>
                (rows (store s))
          ∧ heap (store s')
            = (resolve_image_path input_dir value (fs s) (heap (store s))).2
          ∧ trace s' = trace s ++ [Eresolve_image_path input_dir value]
      | KOther => s' = s
      end.
Proof.
  intros HJ Hs Hrow.
  unfold _resolve_image_entry. rewrite bind_run. unfold kind_of.
  destruct (kind_in (heap (store s)) value) as [items| |] eqn:Hkind.
  - rewrite bind_run.
    destruct (resolve_items_spec J input_dir items s HJ Hs)
      as (s1 & -> & Hrows & Hfs & Htrace & HJ1).
    unfold row_setitem. rewrite Hrows, Hrow.
    eexists. split; [reflexivity|]. simpl. by split_and!.
  - rewrite bind_run, call_resolve_run.
    pose proof (HJ input_dir value (fs s) (heap (store s)) Hs) as Hs1.
    unfold row_setitem. simpl. rewrite Hrow.
    eexists. split; [reflexivity|]. simpl. by split_and!.
  - exists s. by split_and!.
Qed.

(** *** The loop of [_resolve_image]

    [J] is a property of the nested objects that the resolver keeps;
    [Q] picks field values that, while [J] holds, are not dicts. *)

Section Loop.

Context (J : gmap loc obj → Prop) (Q : val → Prop).
Context (HJ : kept_by_resolver resolve_image_path J).
Context (HQ : ∀ h v, J h → Q v → kind_in h v ≠ KDict).

Lemma resolve_image_inv_step (input_dir : Path) (one_line_data : loc)
    (d0 : list (string * val)) (entry : string * val) (s0 s : State) :
  rows (store s0) !! one_line_data = Some d0 →
  entry ∈ d0 →
  resolve_image_inv J Q input_dir one_line_data s0 s →
  ∃ s', resolve_entry input_dir one_line_data entry s = (Ok (), s')
    ∧ resolve_image_inv J Q input_dir one_line_data s0 s'.
Proof.
  intros Hd0 Hentry
    ((d0' & d & Hd0' & Hd & Hkeys & Hkeep) & Hfs & Hs & Hother & evs & Htr & Hevs).
  assert (d0' = d0) as -> by congruence.
  destruct entry as [key value].
  destruct (resolve_entry_spec J input_dir one_line_data key value s d HJ Hs Hd)
    as (s' & Hrun & Hfs' & HJ' & Hkind).
  exists s'. split; [done|].
  assert (key ∈ dict_keys d) as Hin.
  { rewrite Hkeys. apply list_elem_of_fmap. by exists (key, value). }
  assert (∀ v' key' v, NoDup (dict_keys d0) → dict_get key' d0 = Some v → Q v →
            (key' = key → v' = v) →
            dict_get key' (dict_setitem key v' d) = Some v) as Hset.
  { intros v' key' v Hnd Hget Hv Heq. destruct (decide (key = key')) as [<-|Hne].
    - rewrite dict_get_setitem_eq. f_equal. by apply Heq.
    - rewrite dict_get_setitem_ne by done. by apply Hkeep. }
  assert (∀ key' v, NoDup (dict_keys d0) → dict_get key' d0 = Some v →
            key' = key → value = v) as Hsame.
  { intros key' v Hnd Hget ->.
    rewrite (elem_of_dict_get key value d0 Hnd Hentry) in Hget. congruence. }
  destruct (kind_in (heap (store s)) value) as [items| |] eqn:Hk.
  - destruct Hkind as [Hrows Htrace]. split_and!; try congruence.
    + exists d0, (dict_setitem key value d). rewrite Hrows, lookup_insert_eq.
      split_and!; try done; [by rewrite dict_keys_setitem|].
      intros Hnd key' v Hget Hv. apply Hset; eauto.
    + intros r Hr. rewrite Hrows, lookup_insert_ne by done. by apply Hother.
    + exists (evs ++ (Eresolve_image_path input_dir <$> items)).
      split; [by rewrite Htrace, Htr, app_assoc|].
      apply Forall_app. split; [done|]. apply Forall_fmap, Forall_true. by eexists.
  - destruct Hkind as (Hrows & _ & Htrace). split_and!; try congruence.
    + eexists d0, _. rewrite Hrows, lookup_insert_eq.
      split_and!; try done; [by rewrite dict_keys_setitem|].
      intros Hnd key' v Hget Hv. apply Hset; try done.
      intros Heq. exfalso. apply (HQ (heap (store s)) v); [done|done|].
      by rewrite <- (Hsame key' v Hnd Hget Heq).
    + intros r Hr. rewrite Hrows, lookup_insert_ne by done. by apply Hother.
    + exists (evs ++ [Eresolve_image_path input_dir value]).
      split; [by rewrite Htrace, Htr, app_assoc|].
      apply Forall_app. split; [done|]. apply Forall_singleton. by eexists.
  - subst s'. split_and!; try done; eauto 10.
Qed.

(** [_resolve_image] on a line that exists returns, and returns that line. *)
Lemma resolve_image_spec (input_dir : Path) (one_line_data : loc) (s : State)
    (d : list (string * val)) :
  rows (store s) !! one_line_data = Some d →
  J (heap (store s)) →
  ∃ s', resolve_image input_dir one_line_data s = (Ok one_line_data, s')
    ∧ resolve_image_inv J Q input_dir one_line_data s s'.
Proof.
  intros Hd Hs. unfold _resolve_image.
  rewrite bind_run. unfold row_items at 1. rewrite Hd.
  rewrite bind_run.
  destruct (for_each_ok (resolve_image_inv J Q input_dir one_line_data s)
              (resolve_entry input_dir one_line_data) d s)
    as (s' & -> & Hinv).
  - intros entry t Hentry Ht. by eapply resolve_image_inv_step.
  - split_and!; try done.
    + exists d, d. by split_and!.
    + exists []. by rewrite app_nil_r.
  - by exists s'.
Qed.

End Loop.

Lemma resolve_image_missing (input_dir : Path) (one_line_data : loc) (s : State) :
  rows (store s) !! one_line_data = None →
  resolve_image input_dir one_line_data s = (Raise ReferenceError, s).
Proof.
  intros Hd. unfold _resolve_image.
  rewrite bind_run. unfold row_items. by rewrite Hd.
Qed.

(** C9. [_resolve_image] returns the very line it was given, changed in
    place: after the call the line is still there, under the same
    address, with exactly the field names it had, in the same order. *)
Theorem resolve_image_keeps_field_names (input_dir : Path)
    (one_line_data : loc) (s : State) (d : list (string * val)) :
  rows (store s) !! one_line_data = Some d →
  ∃ s' d', resolve_image input_dir one_line_data s = (Ok one_line_data, s')
    ∧ rows (store s') !! one_line_data = Some d'
    ∧ dict_keys d' = dict_keys d.
Proof.
  intros Hd.
  destruct (resolve_image_spec (λ _, True) (λ _, False)
              ltac:(done) ltac:(done) input_dir one_line_data s d Hd I)
    as (s' & Hrun & (d0 & d' & Hd0 & Hd' & Hkeys & _) & _).
  exists s', d'. split_and!; [done|done|congruence].
Qed.

Lemma kind_in_scalar (h : gmap loc obj) (v : val) :
  is_scalar v → kind_in h v = KOther.
Proof. by destruct v. Qed.

(** C7. A field whose value is a scalar, neither a sequence nor a nested
    mapping, has the same value after [_resolve_image]. *)
Theorem resolve_image_scalar_unchanged (input_dir : Path)
    (one_line_data : loc) (s : State) (d : list (string * val))
    (key : string) (v : val) :
  rows (store s) !! one_line_data = Some d →
  NoDup (dict_keys d) →
  dict_get key d = Some v →
  is_scalar v →
  ∃ s' d', resolve_image input_dir one_line_data s = (Ok one_line_data, s')
    ∧ rows (store s') !! one_line_data = Some d'
    ∧ dict_get key d' = Some v.
Proof.
  intros Hd Hnd Hget Hv.
  destruct (resolve_image_spec (λ _, True) is_scalar) with
    (input_dir := input_dir) (one_line_data := one_line_data) (s := s) (d := d)
    as (s' & Hrun & (d0 & d' & Hd0 & Hd' & _ & Hkeep) & _); try done.
  { intros h w _ Hw. by rewrite kind_in_scalar. }
  exists s', d'. split_and!; [done|done|].
  assert (d0 = d) as -> by congruence. by apply Hkeep.
Qed.

(** With a resolver that returns its result and rewrites nothing in
    place, a field holding a list holds the same list after
    [_resolve_image], and the list holds the same items: what the
    resolver returned for them is nowhere in the line. *)
Lemma resolve_image_list_field_kept (input_dir : Path)
    (one_line_data : loc) (s : State) (d : list (string * val))
    (key : string) (l : loc) (items : list val) :
  resolver_returns_only resolve_image_path →
  rows (store s) !! one_line_data = Some d →
  NoDup (dict_keys d) →
  dict_get key d = Some (VRef l) →
  heap (store s) !! l = Some (OList items) →
  ∃ s' d', resolve_image input_dir one_line_data s = (Ok one_line_data, s')
    ∧ rows (store s') !! one_line_data = Some d'
    ∧ dict_get key d' = Some (VRef l)
    ∧ heap (store s') !! l = Some (OList items).
Proof.
  intros Hpure Hd Hnd Hget Hl.
  destruct (resolve_image_spec (λ h, h !! l = Some (OList items)) (λ v, v = VRef l))
    with (input_dir := input_dir) (one_line_data := one_line_data) (s := s) (d := d)
    as (s' & Hrun & (d0 & d' & Hd0 & Hd' & _ & Hkeep) & _ & Hl' & _); try done.
  { intros dir value f h Hh. by apply Hpure. }
  { intros h v Hh ->. simpl. by rewrite Hh. }
  exists s', d'. split_and!; try done.
  assert (d0 = d) as -> by congruence. by apply Hkeep.
Qed.

End ResolveImage.

(** ** The input loader, [_resolve_data] *)

Section ResolveData.

Context (working_dir : Path).
Context (load_data : Path → FS → Store → Result (list loc) * Store).
Context (resolve_image_path :
  Path → val → FS → gmap loc obj → val * gmap loc obj).

Local Abbreviation resolve_image := (_resolve_image resolve_image_path).
Local Abbreviation call_load := (call_load_data load_data).
Local Abbreviation resolve_data_loop :=
  (_resolve_data_loop working_dir load_data resolve_image_path).
Local Abbreviation resolve_data :=
  (_resolve_data working_dir load_data resolve_image_path).

Lemma call_load_data_run (dir : Path) (s : State) :
  call_load dir s =
  ((load_data dir (fs s) (store s)).1,
   mkState (load_data dir (fs s) (store s)).2 (fs s) (trace s ++ [Eload_data dir])).
Proof.
  unfold call_load_data. by destruct (load_data dir (fs s) (store s)).
Qed.

(** When [_resolve_image] returns, it returns the line it was given, has
    written no file, and has called nothing but the resolver, with its
    own [input_dir] as base. *)
Lemma resolve_image_Ok_inv (input_dir : Path) (line r : loc) (s s' : State) :
  resolve_image input_dir line s = (Ok r, s') →
  r = line ∧ fs s' = fs s
  ∧ ∃ evs, trace s' = trace s ++ evs ∧ Forall (calls_resolver_at input_dir) evs.
Proof.
  intros Hrun. destruct (rows (store s) !! line) as [d|] eqn:Hd.
  - destruct (resolve_image_spec resolve_image_path (λ _, True) (λ _, False)
                ltac:(done) ltac:(done) input_dir line s d Hd I)
      as (s1 & Hrun1 & _ & Hfs & _ & _ & Hevs).
    rewrite Hrun1 in Hrun. by simplify_eq.
  - by rewrite resolve_image_missing in Hrun.
Qed.

Lemma for_lines_Ok_inv (input_dir : Path) (lines : list loc) (s s' : State) :
  for_each (λ each_line, _ ← resolve_image input_dir each_line; mret ()) lines s
    = (Ok (), s') →
  lines_resolved resolve_image_path input_dir s lines s'.
Proof.
  revert s. induction lines as [|line lines IH]; intros s.
  - intros [= ->]. constructor.
  - rewrite for_each_cons, bind_run.
    destruct (resolve_image input_dir line s) as [[r|e] s1] eqn:Hline;
      [|discriminate].
    rewrite ret_run. intros Hrest.
    destruct (resolve_image_Ok_inv _ _ _ _ _ Hline) as (-> & _).
    econstructor; eauto.
Qed.

Lemma lines_resolved_trace (input_dir : Path) (lines : list loc) (s s' : State) :
  lines_resolved resolve_image_path input_dir s lines s' →
  fs s' = fs s
  ∧ ∃ evs, trace s' = trace s ++ evs ∧ Forall (calls_resolver_at input_dir) evs.
Proof.
  induction 1 as [s|s s1 s2 line lines Hline _ (Hfs & evs & Htr & Hevs)].
  - split; [done|]. exists []. by rewrite app_nil_r.
  - destruct (resolve_image_Ok_inv _ _ _ _ _ Hline) as (_ & Hfs1 & evs1 & Htr1 & Hevs1).
    split; [congruence|]. exists (evs1 ++ evs).
    split; [by rewrite Htr, Htr1, app_assoc | by apply Forall_app].
Qed.

Lemma resolve_data_loop_Ok_inv (items : list (string * StrOrPath))
    (result data : list (string * list loc)) (s s' : State) :
  resolve_data_loop items result s = (Ok data, s') →
  sources_resolved working_dir load_data resolve_image_path s items s'.
Proof.
  revert result s. induction items as [|[key dir] items IH]; intros result s.
  - intros [= _ ->]. constructor.
  - simpl. intros (lines & s1 & Hload & Hrest)%bind_Ok_inv.
    apply bind_Ok_inv in Hrest as ([] & s2 & Hlines%for_lines_Ok_inv & Hrest).
    econstructor; eauto.
Qed.

Lemma sources_resolved_trace (items : list (string * StrOrPath)) (s s' : State) :
  sources_resolved working_dir load_data resolve_image_path s items s' →
  fs s' = fs s
  ∧ ∃ segments, trace s' = trace s ++ concat segments
      ∧ Forall2 (λ source segment,
          ∃ evs, segment = Eload_data (_resolve_dir working_dir source.2) :: evs
            ∧ Forall (calls_resolver_at (_resolve_dir working_dir source.2)) evs)
          items segments.
Proof.
  induction 1 as [s|s s1 s2 s3 key dir lines items Hload Hlines _
                    (Hfs3 & segments & Htr3 & Hsegs)].
  - split; [done|]. exists []. by rewrite app_nil_r.
  - rewrite call_load_data_run in Hload. injection Hload as _ <-.
    destruct (lines_resolved_trace _ _ _ _ Hlines) as (Hfs2 & evs & Htr2 & Hevs).
    simpl in *. split; [congruence|].
    exists ((Eload_data (_resolve_dir working_dir dir) :: evs) :: segments).
    split.
    + rewrite Htr3, Htr2. simpl. by rewrite <- !app_assoc.
    + constructor; [|done]. by exists evs.
Qed.

(** C5. For every source of the input-source mapping, [_resolve_data]
    resolves the source's directory against the working directory, loads
    it, and passes every line loaded from it through [_resolve_image]
    with that resolved directory as base. Between the load of one source
    and the load of the next, every call of the media resolver has the
    source's own resolved directory as its base directory; no call has
    any other base: a directory that is the resolved directory of no
    source is never the base. The working directory and the output
    directory are not set apart: either is the base when it is the
    resolved directory of a source. *)
Theorem resolve_data_media_scoping (input_dirs : list (string * StrOrPath))
    (s s' : State) (data : list (string * list loc)) :
  resolve_data input_dirs s = (Ok data, s') →
  sources_resolved working_dir load_data resolve_image_path s input_dirs s'
  ∧ ∃ segments, trace s' = trace s ++ concat segments
      ∧ Forall2 (λ source segment,
          ∃ evs, segment = Eload_data (_resolve_dir working_dir source.2) :: evs
            ∧ Forall (calls_resolver_at (_resolve_dir working_dir source.2)) evs)
          input_dirs segments
      ∧ (∀ base value, Eresolve_image_path base value ∈ concat segments →
          ∃ source, source ∈ input_dirs
            ∧ base = _resolve_dir working_dir source.2)
      ∧ ∀ other,
          (∀ source, source ∈ input_dirs →
             _resolve_dir working_dir source.2 ≠ other) →
          never_base other (concat segments).
Proof.
  intros Hrun%resolve_data_loop_Ok_inv. split; [done|].
  destruct (sources_resolved_trace _ _ _ Hrun) as (_ & segments & Htr & Hsegs).
  exists segments.
  assert (∀ base value, Eresolve_image_path base value ∈ concat segments →
          ∃ source, source ∈ input_dirs
            ∧ base = _resolve_dir working_dir source.2) as Hbase.
  { clear Htr Hrun. intros base value.
    induction Hsegs as [|source segment sources segments (evs & -> & Hevs) _ IH];
      simpl.
    - by intros ?%elem_of_nil.
    - intros [Hin|[Hin|Hin]%elem_of_app]%elem_of_cons.
      + done.
      + exists source. split; [left|].
        rewrite Forall_forall in Hevs. destruct (Hevs _ Hin) as [v Hv]. congruence.
      + destruct (IH Hin) as (source' & Hsource' & ->).
        exists source'. split; [by right | done]. }
  split_and!; [done|done|done|].
  intros other Hother value Hin.
  destruct (Hbase _ _ Hin) as (source & Hsource & ->). by apply (Hother source).
Qed.

End ResolveData.

(** ** The output persister, [_persist_outputs] *)

Section PersistOutputs.

Context (persist_multimedia_data :
  loc → Path → Store * FS → Result loc * (Store * FS)).
Context (json_dumps : Store → loc → string).
Context (writable : FS → Path → bool).

Local Abbreviation call_persist :=
  (call_persist_multimedia_data persist_multimedia_data).
Local Abbreviation dump := (dump_list_to_jsonl json_dumps writable).
Local Abbreviation persist_outputs :=
  (_persist_outputs persist_multimedia_data json_dumps writable).

Lemma call_persist_run (value : loc) (base_dir : Path) (s : State) :
  call_persist value base_dir s =
  ((persist_multimedia_data value base_dir (store s, fs s)).1,
   mkState (persist_multimedia_data value base_dir (store s, fs s)).2.1
     (persist_multimedia_data value base_dir (store s, fs s)).2.2
     (trace s ++ [Epersist_multimedia_data value base_dir])).
Proof.
  unfold call_persist_multimedia_data.
  by destruct (persist_multimedia_data value base_dir (store s, fs s)) as [? []].
Qed.

Lemma comprehension_persist_Ok_inv (base_dir : Path) (outputs res : list loc)
    (s s' : State) :
  comprehension (λ output, call_persist output base_dir) outputs s = (Ok res, s') →
  persisted persist_multimedia_data base_dir
    (store s, fs s) outputs res (store s', fs s')
  ∧ trace s' = trace s ++ ((λ o, Epersist_multimedia_data o base_dir) <$> outputs).
Proof.
  revert res s. induction outputs as [|output outputs IH]; intros res s.
  - intros [= <- <-]. split; [constructor | by rewrite app_nil_r].
  - simpl. intros (output' & s1 & Hcall & Hrest)%bind_Ok_inv.
    apply bind_Ok_inv in Hrest as (res' & s2 & Hrest & [= <- <-]).
    destruct (IH _ _ Hrest) as [Hp Htr].
    rewrite call_persist_run in Hcall. injection Hcall as Hout <-.
    simpl in *. split.
    + econstructor; [|exact Hp].
      destruct (persist_multimedia_data output base_dir (store s, fs s))
        as [? []]; simpl in *; by subst.
    + by rewrite Htr, <- app_assoc.
Qed.

Lemma persisted_lookup (base_dir : Path) (outputs res : list loc)
    (w w' : Store * FS) :
  persisted persist_multimedia_data base_dir w outputs res w' →
  length res = length outputs
  ∧ ∀ i output, outputs !! i = Some output →
      ∃ output' w1 w2, res !! i = Some output'
        ∧ persist_multimedia_data output base_dir w1 = (Ok output', w2).
Proof.
  induction 1 as [w|w w1 w2 output output' outputs res Hcall _ [Hlen IH]].
  - split; [done|]. intros i output. by rewrite lookup_nil.
  - split; [simpl; by rewrite Hlen|].
    intros [|i] o; simpl; [intros [= <-]; eauto | apply IH].
Qed.

Lemma dump_Ok_inv (file_path : Path) (list_data : list loc) (s s' : State) :
  dump file_path list_data s = (Ok (), s') →
  store s' = store s
  ∧ fs s' = <[file_path := json_dumps (store s) <$> list_data]> (fs s)
  ∧ trace s' = trace s ++ [Edump_list_to_jsonl file_path list_data].
Proof.
  unfold dump_list_to_jsonl. destruct (writable (fs s) file_path); [|done].
  by intros [= <-].
Qed.

Lemma persist_outputs_Ok_inv (outputs res : list loc) (output_dir : Path)
    (s s' : State) :
  persist_outputs outputs output_dir s = (Ok res, s') →
  ∃ w, persisted persist_multimedia_data output_dir (store s, fs s) outputs res w
    ∧ store s' = w.1
    ∧ fs s' = <[(output_dir / of_string OUTPUT_FILE_NAME)%path
                  := json_dumps w.1 <$> res]> w.2
    ∧ trace s' = trace s
        ++ ((λ o, Epersist_multimedia_data o output_dir) <$> outputs)
        ++ [Edump_list_to_jsonl (output_dir / of_string OUTPUT_FILE_NAME)%path res].
Proof.
  unfold _persist_outputs.
  intros (res' & s1 & [Hp Htr]%comprehension_persist_Ok_inv & Hrest)%bind_Ok_inv.
  apply bind_Ok_inv in Hrest as ([] & s2 & (Hst & Hfs & Htr2)%dump_Ok_inv & [= <- <-]).
  exists (store s1, fs s1). simpl. split_and!; try done.
  by rewrite Htr2, Htr, <- app_assoc.
Qed.

Lemma output_file_name (output_dir : Path) :
  (output_dir / of_string OUTPUT_FILE_NAME)%path
  = mkPath (root output_dir) (parts output_dir ++ ["output.jsonl"]).
Proof. reflexivity. Qed.

(** C10. [_persist_outputs] returns one record per output record, in the
    same order: element [i] of the result is what
    [persist_multimedia_data] returned for element [i] of the input. *)
Theorem persist_outputs_one_per_record (outputs res : list loc)
    (output_dir : Path) (s s' : State) :
  persist_outputs outputs output_dir s = (Ok res, s') →
  length res = length outputs
  ∧ (∃ w, persisted persist_multimedia_data output_dir
            (store s, fs s) outputs res w)
  ∧ ∀ i output, outputs !! i = Some output →
      ∃ output' w1 w2, res !! i = Some output'
        ∧ persist_multimedia_data output output_dir w1 = (Ok output', w2).
Proof.
  intros (w & Hp & _)%persist_outputs_Ok_inv.
  destruct (persisted_lookup _ _ _ _ _ Hp) as [Hlen Hi].
  split_and!; [done | by exists w | done].
Qed.

(** C4. [_persist_outputs] writes one file, [output.jsonl] in the output
    directory. Whatever the file held before, it then holds one line per
    output record and nothing else: line [i] is the JSON text of the
    persisted form of record [i]. *)
Theorem persist_outputs_writes_output_file (outputs res : list loc)
    (output_dir : Path) (s s' : State) :
  persist_outputs outputs output_dir s = (Ok res, s') →
  fs s' !! mkPath (root output_dir) (parts output_dir ++ ["output.jsonl"])
    = Some (json_dumps (store s') <$> res)
  ∧ length (json_dumps (store s') <$> res) = length outputs
  ∧ (∃ w, persisted persist_multimedia_data output_dir
            (store s, fs s) outputs res w)
  ∧ trace s' = trace s
      ++ ((λ o, Epersist_multimedia_data o output_dir) <$> outputs)
      ++ [Edump_list_to_jsonl
            (mkPath (root output_dir) (parts output_dir ++ ["output.jsonl"])) res].
Proof.
  intros (w & Hp & Hst & Hfs & Htr)%persist_outputs_Ok_inv.
  rewrite output_file_name in Hfs, Htr.
  destruct (persisted_lookup _ _ _ _ _ Hp) as [Hlen _].
  split_and!.
  - by rewrite Hfs, lookup_insert_eq, Hst.
  - by rewrite length_fmap.
  - by exists w.
  - done.
Qed.

End PersistOutputs.

(** ** The orchestrator, [run] *)

Section Run.

Context {Meta : Type}.
Context (working_dir : Path).
Context (load_data : Path → FS → Store → Result (list loc) * Store).
Context (resolve_image_path :
  Path → val → FS → gmap loc obj → val * gmap loc obj).
Context (validate_and_apply_inputs_mapping :
  list (string * list loc) → list (string * string) → Store →
  Result (list loc) * Store).
Context (exec_bulk :
  list loc → option string → Path → Store * FS →
  Result (BulkResult Meta) * (Store * FS)).
Context (persist_multimedia_data :
  loc → Path → Store * FS → Result loc * (Store * FS)).
Context (json_dumps : Store → loc → string).
Context (writable : FS → Path → bool).

Local Abbreviation resolve_data :=
  (_resolve_data working_dir load_data resolve_image_path).
Local Abbreviation get_input_dicts :=
  (_get_input_dicts working_dir load_data resolve_image_path
     validate_and_apply_inputs_mapping).
Local Abbreviation persist_outputs :=
  (_persist_outputs persist_multimedia_data json_dumps writable).
Local Abbreviation engine_run :=
  (run working_dir load_data resolve_image_path
     validate_and_apply_inputs_mapping exec_bulk persist_multimedia_data
     json_dumps writable).

Lemma call_mapping_run (inputs : list (string * list loc))
    (inputs_mapping : list (string * string)) (s : State) :
  call_validate_and_apply_inputs_mapping validate_and_apply_inputs_mapping
    inputs inputs_mapping s =
  ((validate_and_apply_inputs_mapping inputs inputs_mapping (store s)).1,
   mkState (validate_and_apply_inputs_mapping inputs inputs_mapping (store s)).2
     (fs s)
     (trace s ++ [Evalidate_and_apply_inputs_mapping inputs inputs_mapping])).
Proof.
  unfold call_validate_and_apply_inputs_mapping.
  by destruct (validate_and_apply_inputs_mapping inputs inputs_mapping (store s)).
Qed.

Lemma call_exec_bulk_run (inputs : list loc) (run_id : option string)
    (output_dir : Path) (s : State) :
  call_exec_bulk exec_bulk inputs run_id output_dir s =
  ((exec_bulk inputs run_id output_dir (store s, fs s)).1,
   mkState (exec_bulk inputs run_id output_dir (store s, fs s)).2.1
     (exec_bulk inputs run_id output_dir (store s, fs s)).2.2
     (trace s ++ [Eexec_bulk inputs run_id output_dir])).
Proof.
  unfold call_exec_bulk.
  by destruct (exec_bulk inputs run_id output_dir (store s, fs s)) as [? []].
Qed.

(** A run that returns has gone through its four steps. *)
Lemma run_Ok_inv (input_dirs : list (string * StrOrPath))
    (inputs_mapping : list (string * string)) (output_dir : StrOrPath)
    (run_id : option string) (s s' : State) (result : BulkResult Meta) :
  engine_run input_dirs inputs_mapping output_dir run_id s = (Ok result, s') →
  ∃ input_dicts s1 batch_result,
    get_input_dicts input_dirs inputs_mapping s = (Ok input_dicts, s1)
    ∧ (exec_bulk input_dicts run_id (_resolve_dir working_dir output_dir)
         (store s1, fs s1)).1 = Ok batch_result
    ∧ persist_outputs (outputs batch_result) (_resolve_dir working_dir output_dir)
        (after_execution exec_bulk input_dicts run_id
           (_resolve_dir working_dir output_dir) s1)
      = (Ok (outputs result), s')
    ∧ result = set_outputs (outputs result) batch_result.
Proof.
  unfold run.
  intros (input_dicts & s1 & Hin & Hrest)%bind_Ok_inv.
  apply bind_Ok_inv in Hrest as (batch_result & s2 & Hexec & Hrest).
  apply bind_Ok_inv in Hrest as (outs & s3 & Hpersist & [= <- <-]).
  exists input_dicts, s1, batch_result. unfold after_execution.
  rewrite Hexec. rewrite call_exec_bulk_run in Hexec. injection Hexec as Hbr _.
  by split_and!.
Qed.

(** C1. When [run] returns, the [outputs] of the result are the records
    that were written to the output file, in the same order: the last
    thing the run did was to dump exactly that list to [output.jsonl] in
    the resolved output directory, and the file holds one line for each
    of them, in that order. *)
Theorem run_outputs_are_what_was_written
    (input_dirs : list (string * StrOrPath))
    (inputs_mapping : list (string * string)) (output_dir : StrOrPath)
    (run_id : option string) (s s' : State) (result : BulkResult Meta) :
  engine_run input_dirs inputs_mapping output_dir run_id s = (Ok result, s') →
  last (trace s')
    = Some (Edump_list_to_jsonl
              (_resolve_dir working_dir output_dir / of_string OUTPUT_FILE_NAME)%path
              (outputs result))
  ∧ fs s' !! (_resolve_dir working_dir output_dir / of_string OUTPUT_FILE_NAME)%path
    = Some (json_dumps (store s') <$> outputs result).
Proof.
  intros (input_dicts & s1 & batch_result & _ & _ & Hpersist & _)%run_Ok_inv.
  apply persist_outputs_Ok_inv in Hpersist as (w & _ & Hst & Hfs & Htr).
  split.
  - by rewrite Htr, !app_assoc, last_snoc.
  - by rewrite Hfs, lookup_insert_eq, Hst.
Qed.

(** C8. When [run] returns, its result is the [BulkResult] that the
    executor produced, with one change: [outputs] holds what
    [_persist_outputs] returned for the executor's outputs. The other
    fields are the executor's, and the run ends in the state in which
    [_persist_outputs] ended: replacing [outputs] is its last step. *)
Theorem run_replaces_outputs_only
    (input_dirs : list (string * StrOrPath))
    (inputs_mapping : list (string * string)) (output_dir : StrOrPath)
    (run_id : option string) (s s' : State) (result : BulkResult Meta) :
  engine_run input_dirs inputs_mapping output_dir run_id s = (Ok result, s') →
  ∃ input_dicts s1 batch_result,
    get_input_dicts input_dirs inputs_mapping s = (Ok input_dicts, s1)
    ∧ (exec_bulk input_dicts run_id (_resolve_dir working_dir output_dir)
         (store s1, fs s1)).1 = Ok batch_result
    ∧ persist_outputs (outputs batch_result) (_resolve_dir working_dir output_dir)
        (after_execution exec_bulk input_dicts run_id
           (_resolve_dir working_dir output_dir) s1)
      = (Ok (outputs result), s')
    ∧ metadata result = metadata batch_result
    ∧ result = set_outputs (outputs result) batch_result.
Proof.
  intros (input_dicts & s1 & batch_result & Hin & Hexec & Hpersist & Hres)%run_Ok_inv.
  exists input_dicts, s1, batch_result. split_and!; try done.
  by rewrite Hres.
Qed.

(** C3. When the input mapping raises, [run] raises the same error
    there: the executor is not called, nothing is persisted or dumped,
    and the file system is as it was before the call. *)
Theorem run_mapping_error_before_execution
    (input_dirs : list (string * StrOrPath))
    (inputs_mapping : list (string * string)) (output_dir : StrOrPath)
    (run_id : option string) (s s1 : State)
    (input_dicts : list (string * list loc)) (e : exn) (st : Store) :
  resolve_data input_dirs s = (Ok input_dicts, s1) →
  validate_and_apply_inputs_mapping input_dicts inputs_mapping (store s1)
    = (Raise e, st) →
  ∃ s', engine_run input_dirs inputs_mapping output_dir run_id s = (Raise e, s')
    ∧ fs s' = fs s
    ∧ ∃ evs, trace s' = trace s ++ evs ∧ Forall before_execution evs.
Proof.
  intros Hdata Hmap.
  unfold run, _get_input_dicts.
  rewrite !bind_run, Hdata, call_mapping_run, Hmap. simpl.
  eexists. split; [reflexivity|]. simpl.
  pose proof (resolve_data_loop_Ok_inv working_dir load_data resolve_image_path
                input_dirs [] input_dicts s s1 Hdata) as Hsrc.
  destruct (sources_resolved_trace working_dir load_data resolve_image_path
              input_dirs s s1 Hsrc) as (Hfs & segments & Htr & Hsegs).
  split; [done|].
  exists (concat segments
          ++ [Evalidate_and_apply_inputs_mapping input_dicts inputs_mapping]).
  split; [by rewrite Htr, app_assoc|].
  apply Forall_app. split; [|by apply Forall_singleton].
  apply Forall_concat.
  clear Htr Hsrc Hdata. induction Hsegs as [|source segment ? ? (evs & -> & Hevs) _ IH].
  - constructor.
  - constructor; [|done]. constructor; [done|].
    eapply Forall_impl; [exact Hevs|]. by intros ? [v ->].
Qed.

End Run.

(** ** The fields of a line, one after the other *)

Lemma for_each_app {A : Type} (f : A → M unit) (l1 l2 : list A) (s s1 : State) :
  for_each f l1 s = (Ok (), s1) →
  for_each f (l1 ++ l2) s = for_each f l2 s1.
Proof.
  revert s. induction l1 as [|x l1 IH]; intros s; simpl.
  - by intros [= ->].
  - rewrite !bind_run. destruct (f x s) as [[[]|e] s0]; [|done]. apply IH.
Qed.

(** The entry that [get] finds splits the dict, and its key is not
    among the entries before it. *)
Lemma dict_get_split {V : Type} (key : string) (v : V) (d : list (string * V)) :
  dict_get key d = Some v →
  ∃ before after, d = before ++ (key, v) :: after ∧ (key ∉ before.*1).
Proof.
  induction d as [|[k x] d IH]; simpl; [done|].
  case_decide as Hk.
  - intros [= ->]. subst. exists [], d. split; [done|]. apply not_elem_of_nil.
  - intros (before & after & -> & Hnotin)%IH.
    exists ((k, x) :: before), after. split; [done|].
    simpl. apply not_elem_of_cons. split; [congruence | done].
Qed.

Section OtherFields.

Context (resolve_image_path :
  Path → val → FS → gmap loc obj → val * gmap loc obj).
Context (J : gmap loc obj → Prop).
Context (HJ : kept_by_resolver resolve_image_path J).

(** The loop of [_resolve_image] over entries under other names leaves
    the field [key] as it is. *)
Lemma resolve_entries_other (input_dir : Path) (one_line_data : loc)
    (key : string) (entries : list (string * val)) (s : State)
    (d : list (string * val)) :
  rows (store s) !! one_line_data = Some d →
  J (heap (store s)) →
  key ∉ entries.*1 →
  ∃ s' d' evs,
    for_each (_resolve_image_entry resolve_image_path input_dir one_line_data)
      entries s = (Ok (), s')
    ∧ rows (store s') !! one_line_data = Some d'
    ∧ dict_get key d' = dict_get key d
    ∧ fs s' = fs s
    ∧ J (heap (store s'))
    ∧ trace s' = trace s ++ evs.
Proof.
  revert s d. induction entries as [|[k v] entries IH]; intros s d Hd Hs Hkey.
  - exists s, d, []. by rewrite app_nil_r.
  - simpl in Hkey. apply not_elem_of_cons in Hkey as [Hne Hkey].
    destruct (resolve_entry_spec resolve_image_path J input_dir one_line_data
                k v s d HJ Hs Hd) as (s1 & Hrun & Hfs1 & Hs1 & Hkind).
    assert (∃ d1 evs1, rows (store s1) !! one_line_data = Some d1
              ∧ dict_get key d1 = dict_get key d
              ∧ trace s1 = trace s ++ evs1) as (d1 & evs1 & Hd1 & Hget1 & Htr1).
    { destruct (kind_in (heap (store s)) v).
      - destruct Hkind as [-> ->]. rewrite lookup_insert_eq.
        eexists _, _. split_and!; [done| |done]. by rewrite dict_get_setitem_ne.
      - destruct Hkind as (-> & _ & ->). rewrite lookup_insert_eq.
        eexists _, _. split_and!; [done| |done]. by rewrite dict_get_setitem_ne.
      - subst s1. exists d, []. by rewrite app_nil_r. }
    destruct (IH s1 d1 Hd1 Hs1 Hkey) as (s' & d' & evs & Hrest & Hd' & Hget & Hfs & Hs' & Htr).
    exists s', d', (evs1 ++ evs). rewrite for_each_cons, Hrun.
    split_and!; try done; [congruence | congruence |].
    by rewrite Htr, Htr1, <- app_assoc.
Qed.

End OtherFields.

(** ** Lists of media references *)

Section ResolveImageList.

Context (resolve_image_path :
  Path → val → FS → gmap loc obj → val * gmap loc obj).
Context (input_dir : Path).
Context (Resolved : gmap loc obj → val → Prop).
Context (Hlists : resolver_keeps_lists resolve_image_path).
Context (Hresolves : ∀ value f h,
  Resolved (resolve_image_path input_dir value f h).2 value).
Context (Hstays : ∀ dir value f h v,
  Resolved h v → Resolved (resolve_image_path dir value f h).2 v).





End ResolveImageList.


(** ** The engine on the small batch *)

Import Doubles Sample.

(** What the resolver returns for an item of a list is not stored
    (l.85): with a resolver that returns the resolved reference as a new
    dict and rewrites nothing in place, [_resolve_image] passes each
    item of the [images] list to the resolver and then leaves the field
    holding the same list with the same items, the reference in it
    still the relative one. The [photo] field of the same line, a
    nested mapping, does get what the resolver returned. *)
Lemma resolve_image_list_items_not_replaced :
  (_resolve_image resolve_returning docs 10%positive state).1 = Ok 10%positive
  ∧ trace (_resolve_image resolve_returning docs 10%positive state).2
    = [Eresolve_image_path docs (VRef 1%positive);
       Eresolve_image_path docs (VStr "caption");
       Eresolve_image_path docs (VRef 3%positive)]
  ∧ rows (store (_resolve_image resolve_returning docs 10%positive state).2)
      !! 10%positive
    = Some [("text", VStr "hello"); ("images", VRef 2%positive);
            ("photo", VRef 6%positive)]
  ∧ heap (store (_resolve_image resolve_returning docs 10%positive state).2)
      !! 2%positive
    = Some (OList [VRef 1%positive; VStr "caption"])
  ∧ heap (store (_resolve_image resolve_returning docs 10%positive state).2)
      !! 1%positive
    = Some (ODict [("data:image/png;path", VStr "logo.png")])
  ∧ heap (store (_resolve_image resolve_returning docs 10%positive state).2)
      !! 6%positive
    = Some (ODict [("data:image/png;path", VStr "/work/flow/data/docs/cat.png")])
  ∧ resolve_returning docs (VRef 1%positive) files objects
    = (VRef 5%positive,
       <[5%positive :=
           ODict [("data:image/png;path", VStr "/work/flow/data/docs/logo.png")]]>
         objects).
Proof. vm_compute. by split_and!. Qed.

(** With a resolver that rewrites the reference it is given where it is,
    the same call does leave the list with a resolved reference in it:
    what the items of a list field become is what the resolver does to
    them in place. *)
Lemma resolve_image_list_items_in_place :
  rows (store (_resolve_image resolve_in_place docs 10%positive state).2)
      !! 10%positive
    = Some doc_line
  ∧ heap (store (_resolve_image resolve_in_place docs 10%positive state).2)
      !! 2%positive
    = Some (OList [VRef 1%positive; VStr "caption"])
  ∧ heap (store (_resolve_image resolve_in_place docs 10%positive state).2)
      !! 1%positive
    = Some (ODict [("data:image/png;path", VStr "/work/flow/data/docs/logo.png")]).
Proof. vm_compute. by split_and!. Qed.

Lemma resolve_returning_returns_only : resolver_returns_only resolve_returning.
Proof.
  intros input_dir value f h l o Hl. unfold resolve_returning.
  destruct value; try done.
  destruct (h !! _ ≫= media_reference) as [[k p]|]; [|done]. simpl.
  rewrite lookup_insert_ne; [done|].
  intros <-. apply (is_fresh (dom h)), elem_of_dom. eauto.
Qed.

Lemma resolve_image_list_field_kept_witness :
  ∃ s' d', _resolve_image resolve_returning docs 10%positive state
           = (Ok 10%positive, s')
    ∧ rows (store s') !! 10%positive = Some d'
    ∧ dict_get "images" d' = Some (VRef 2%positive)
    ∧ heap (store s') !! 2%positive
      = Some (OList [VRef 1%positive; VStr "caption"]).
Proof.
  apply (resolve_image_list_field_kept resolve_returning docs 10%positive
           state doc_line "images" 2%positive).
  - exact resolve_returning_returns_only.
  - reflexivity.
  - apply (bool_decide_unpack _). vm_compute. exact I.
  - reflexivity.
  - reflexivity.
Defined.

(** *** The stand-in that resolves in place meets the contract *)

Lemma resolve_in_place_keeps_lists : resolver_keeps_lists resolve_in_place.
Proof.
  intros input_dir value f h l items Hl. unfold resolve_in_place.
  destruct value as [| | | |l']; try done.
  destruct (h !! l') as [o|] eqn:Ho; simpl; [|done].
  destruct (media_reference o) as [[k p]|] eqn:Hm; [|done]. simpl.
  rewrite lookup_insert_ne; [done|]. intros ->.
  rewrite Hl in Ho. by simplify_eq.
Qed.


Lemma media_reference_resolved (input_dir : Path) (k p : string) :
  is_image_path_key k = true →
  media_reference (resolved_reference input_dir k p)
  = Some (k, to_string (input_dir / of_string p)%path).
Proof. intros Hk. unfold resolved_reference. simpl. by rewrite Hk. Qed.






(** *** The properties at the small batch *)

Lemma resolve_dir_idempotent_witness :
  _resolve_dir working_dir (AStr "/mnt/images") = images
  ∧ _resolve_dir working_dir (AStr "data/docs")
    = (working_dir / of_string "data/docs")%path
  ∧ _resolve_dir working_dir (APath (_resolve_dir working_dir (AStr "data/docs")))
    = _resolve_dir working_dir (AStr "data/docs").
Proof.
  destruct (resolve_dir_idempotent working_dir (AStr "/mnt/images")) as (Habs & _ & _).
  destruct (resolve_dir_idempotent working_dir (AStr "data/docs")) as (_ & Hrel & Hidem).
  split_and!; [apply Habs | apply Hrel | apply Hidem]; reflexivity.
Defined.

Lemma resolve_image_keeps_field_names_witness :
  ∃ s' d', _resolve_image resolve_in_place docs 10%positive state
           = (Ok 10%positive, s')
    ∧ rows (store s') !! 10%positive = Some d'
    ∧ dict_keys d' = ["text"; "images"; "photo"].
Proof.
  apply (resolve_image_keeps_field_names resolve_in_place docs 10%positive
           state doc_line).
  reflexivity.
Defined.

Lemma resolve_image_scalar_unchanged_witness :
  ∃ s' d', _resolve_image resolve_in_place docs 10%positive state
           = (Ok 10%positive, s')
    ∧ rows (store s') !! 10%positive = Some d'
    ∧ dict_get "text" d' = Some (VStr "hello").
Proof.
  apply (resolve_image_scalar_unchanged resolve_in_place docs 10%positive
           state doc_line "text" (VStr "hello")).
  - reflexivity.
  - apply (bool_decide_unpack _). vm_compute. exact I.
  - reflexivity.
  - exact I.
Defined.


Lemma resolve_data_media_scoping_witness :
  (Sample.load_all state).1
    = Ok [("docs", [10%positive]); ("images", [11%positive])]
  ∧ sources_resolved working_dir (load_table table) resolve_in_place
      state input_dirs (Sample.load_all state).2
  ∧ ∃ segments,
      trace (Sample.load_all state).2 = trace state ++ concat segments
      ∧ Forall2 (λ source segment,
          ∃ evs, segment = Eload_data (_resolve_dir working_dir source.2) :: evs
            ∧ Forall (calls_resolver_at (_resolve_dir working_dir source.2)) evs)
          input_dirs segments
      ∧ (∀ base value, Eresolve_image_path base value ∈ concat segments →
          ∃ source, source ∈ input_dirs
            ∧ base = _resolve_dir working_dir source.2)
      ∧ ∀ other,
          (∀ source, source ∈ input_dirs →
             _resolve_dir working_dir source.2 ≠ other) →
          never_base other (concat segments).
Proof.
  split; [vm_compute; reflexivity|].
  apply (resolve_data_media_scoping working_dir (load_table table)
           resolve_in_place input_dirs state (Sample.load_all state).2
           [("docs", [10%positive]); ("images", [11%positive])]).
  vm_compute. reflexivity.
Defined.

(** C5, the clause "never the working directory itself and never the
    output directory". A source bound to [.] has the working directory
    as its resolved directory, a source bound to [out] has the directory
    that the same run writes its outputs to, and the lines of each are
    resolved with that directory as base: the media reference of the
    first source ends up rooted at the working directory. *)
Lemma resolve_data_base_may_be_working_dir :
  _resolve_dir working_dir (AStr ".") = working_dir
  ∧ _resolve_dir working_dir (AStr "out") = out
  ∧ (Scoping.load_here state).1
    = Ok [("here", [10%positive]); ("results", [11%positive])]
  ∧ trace (Scoping.load_here state).2
    = [Eload_data working_dir;
       Eresolve_image_path working_dir (VRef 1%positive);
       Eresolve_image_path working_dir (VStr "caption");
       Eresolve_image_path working_dir (VRef 3%positive);
       Eload_data out;
       Eresolve_image_path out (VRef 4%positive)]
  ∧ heap (store (Scoping.load_here state).2) !! 3%positive
    = Some (ODict [("data:image/png;path", VStr "/work/flow/cat.png")])
  ∧ ¬ never_base working_dir (trace (Scoping.load_here state).2)
  ∧ ¬ never_base out (trace (Scoping.load_here state).2)
  ∧ (Scoping.run_here state).1 = Ok (mkBulkResult [12%positive] 1)
  ∧ trace (Scoping.run_here state).2
    = trace (Scoping.load_here state).2
      ++ [Evalidate_and_apply_inputs_mapping
            [("here", [10%positive]); ("results", [11%positive])]
            Scoping.here_mapping;
          Eexec_bulk [10%positive] (Some "run-1") out;
          Epersist_multimedia_data 10%positive out;
          Edump_list_to_jsonl (out / of_string OUTPUT_FILE_NAME)%path
            [12%positive]].
Proof.
  assert (trace (Scoping.load_here state).2
    = [Eload_data working_dir;
       Eresolve_image_path working_dir (VRef 1%positive);
       Eresolve_image_path working_dir (VStr "caption");
       Eresolve_image_path working_dir (VRef 3%positive);
       Eload_data out;
       Eresolve_image_path out (VRef 4%positive)]) as Htrace
    by (vm_compute; reflexivity).
  split_and!; try (vm_compute; reflexivity); try exact Htrace.
  - intros Hnever. apply (Hnever (VRef 3%positive)). rewrite Htrace.
    do 3 right. left.
  - intros Hnever. apply (Hnever (VRef 4%positive)). rewrite Htrace.
    do 5 right. left.
Qed.

Lemma persist_outputs_one_per_record_witness :
  (Sample.persist_all state).1 = Ok [12%positive; 13%positive]
  ∧ length [12%positive; 13%positive] = length [10%positive; 11%positive]
  ∧ (∃ w, persisted persist_copy out (store state, fs state)
            [10%positive; 11%positive] [12%positive; 13%positive] w)
  ∧ ∀ i output, [10%positive; 11%positive] !! i = Some output →
      ∃ output' w1 w2, [12%positive; 13%positive] !! i = Some output'
        ∧ persist_copy output out w1 = (Ok output', w2).
Proof.
  split; [vm_compute; reflexivity|].
  apply (persist_outputs_one_per_record persist_copy dumps_keys always_writable
           [10%positive; 11%positive] [12%positive; 13%positive] out state
           (Sample.persist_all state).2).
  vm_compute. reflexivity.
Defined.

Lemma persist_outputs_writes_output_file_witness :
  (Sample.persist_all state).1 = Ok [12%positive; 13%positive]
  ∧ files !! of_string "/work/flow/out/output.jsonl"
    = Some ["stale"; "stale"; "stale"]
  ∧ fs (Sample.persist_all state).2
      !! mkPath (root out) (parts out ++ ["output.jsonl"])
    = Some (dumps_keys (store (Sample.persist_all state).2)
              <$> [12%positive; 13%positive])
  ∧ length (dumps_keys (store (Sample.persist_all state).2)
              <$> [12%positive; 13%positive])
    = length [10%positive; 11%positive]
  ∧ (∃ w, persisted persist_copy out (store state, fs state)
            [10%positive; 11%positive] [12%positive; 13%positive] w)
  ∧ trace (Sample.persist_all state).2 = trace state
      ++ ((λ o, Epersist_multimedia_data o out) <$> [10%positive; 11%positive])
      ++ [Edump_list_to_jsonl (mkPath (root out) (parts out ++ ["output.jsonl"]))
            [12%positive; 13%positive]].
Proof.
  split; [vm_compute; reflexivity|]. split; [vm_compute; reflexivity|].
  apply (persist_outputs_writes_output_file persist_copy dumps_keys
           always_writable [10%positive; 11%positive] [12%positive; 13%positive]
           out state (Sample.persist_all state).2).
  vm_compute. reflexivity.
Defined.

Lemma run_outputs_are_what_was_written_witness :
  (Sample.run_batch inputs_mapping state).1 = Ok (mkBulkResult [12%positive] 1)
  ∧ last (trace (Sample.run_batch inputs_mapping state).2)
    = Some (Edump_list_to_jsonl
              (_resolve_dir working_dir (AStr "out") / of_string OUTPUT_FILE_NAME)%path
              (outputs (mkBulkResult [12%positive] 1)))
  ∧ fs (Sample.run_batch inputs_mapping state).2
      !! (_resolve_dir working_dir (AStr "out") / of_string OUTPUT_FILE_NAME)%path
    = Some (dumps_keys (store (Sample.run_batch inputs_mapping state).2)
              <$> outputs (mkBulkResult [12%positive] 1)).
Proof.
  split; [vm_compute; reflexivity|].
  apply (run_outputs_are_what_was_written working_dir (load_table table)
           resolve_in_place map_sources exec_echo persist_copy dumps_keys
           always_writable input_dirs inputs_mapping (AStr "out")
           (Some "run-1") state (Sample.run_batch inputs_mapping state).2
           (mkBulkResult [12%positive] 1)).
  vm_compute. reflexivity.
Defined.

Lemma run_replaces_outputs_only_witness :
  (Sample.run_batch inputs_mapping state).1 = Ok (mkBulkResult [12%positive] 1)
  ∧ ∃ input_dicts s1 batch_result,
      _get_input_dicts working_dir (load_table table) resolve_in_place
        map_sources input_dirs inputs_mapping state
      = (Ok input_dicts, s1)
      ∧ (exec_echo input_dicts (Some "run-1")
           (_resolve_dir working_dir (AStr "out")) (store s1, fs s1)).1
        = Ok batch_result
      ∧ _persist_outputs persist_copy dumps_keys always_writable
          (outputs batch_result) (_resolve_dir working_dir (AStr "out"))
          (after_execution exec_echo input_dicts (Some "run-1")
             (_resolve_dir working_dir (AStr "out")) s1)
        = (Ok (outputs (mkBulkResult [12%positive] 1)),
           (Sample.run_batch inputs_mapping state).2)
      ∧ metadata (mkBulkResult [12%positive] 1) = metadata batch_result
      ∧ mkBulkResult [12%positive] 1
        = set_outputs (outputs (mkBulkResult [12%positive] 1)) batch_result.
Proof.
  split; [vm_compute; reflexivity|].
  apply (run_replaces_outputs_only working_dir (load_table table)
           resolve_in_place map_sources exec_echo persist_copy dumps_keys
           always_writable input_dirs inputs_mapping (AStr "out")
           (Some "run-1") state (Sample.run_batch inputs_mapping state).2
           (mkBulkResult [12%positive] 1)).
  vm_compute. reflexivity.
Defined.

Lemma run_mapping_error_before_execution_witness :
  (Sample.load_all state).1
    = Ok [("docs", [10%positive]); ("images", [11%positive])]
  ∧ (map_sources [("docs", [10%positive]); ("images", [11%positive])]
       bad_mapping (store (Sample.load_all state).2)).1
    = Raise (MappingError "missing_source")
  ∧ ∃ s', Sample.run_batch bad_mapping state = (Raise (MappingError "missing_source"), s')
      ∧ fs s' = fs state
      ∧ ∃ evs, trace s' = trace state ++ evs ∧ Forall before_execution evs.
Proof.
  split; [vm_compute; reflexivity|]. split; [vm_compute; reflexivity|].
  apply (run_mapping_error_before_execution working_dir (load_table table)
           resolve_in_place map_sources exec_echo persist_copy dumps_keys
           always_writable input_dirs bad_mapping (AStr "out") (Some "run-1")
           state (Sample.load_all state).2
           [("docs", [10%positive]); ("images", [11%positive])]
           (MappingError "missing_source")
           (map_sources [("docs", [10%positive]); ("images", [11%positive])]
              bad_mapping (store (Sample.load_all state).2)).2).
  - vm_compute. reflexivity.
  - vm_compute. reflexivity.
Defined.

(** * Further properties *)

(** ** More on the media reference resolver *)

Section ResolveImageCalls.

Context (resolve_image_path :
  Path → val → FS → gmap loc obj → val * gmap loc obj).
Context (Hlists : resolver_keeps_lists resolve_image_path).
Context (Hdicts : resolver_keeps_dicts resolve_image_path).

Lemma same_shape_refl (h : gmap loc obj) : same_shape h h.
Proof. intros l. split; eauto. Qed.

Lemma same_shape_kept (h0 : gmap loc obj) :
  kept_by_resolver resolve_image_path (same_shape h0).
Proof.
  intros input_dir value f h Hh l. destruct (Hh l) as [Hl Hd]. split.
  - intros items Hitems. by apply Hlists, Hl.
  - intros entries Hentries. destruct (Hd _ Hentries) as [entries' He].
    by eapply Hdicts.
Qed.

Lemma same_shape_kind (h0 h : gmap loc obj) (v : val) :
  same_shape h0 h → allocated h0 v → kind_in h v = kind_in h0 v.
Proof.
  intros Hh Hv. destruct v as [| | | |l]; try done. simpl in *.
  destruct (Hh l) as [Hl Hd]. destruct Hv as [[items|entries] Ho]; rewrite Ho.
  - by rewrite (Hl _ Ho).
  - destruct (Hd _ Ho) as [entries' ->]. done.
Qed.

Lemma resolve_entries_calls (h0 : gmap loc obj) (input_dir : Path)
    (one_line_data : loc) (entries : list (string * val)) (s : State)
    (d : list (string * val)) :
  rows (store s) !! one_line_data = Some d →
  same_shape h0 (heap (store s)) →
  Forall (λ entry, allocated h0 entry.2) entries →
  ∃ s', for_each (_resolve_image_entry resolve_image_path input_dir one_line_data)
          entries s = (Ok (), s')
    ∧ trace s' = trace s ++ concat (resolver_calls_for h0 input_dir <$> entries).
Proof.
  revert s d. induction entries as [|[key value] entries IH]; intros s d Hd Hs Hall.
  - exists s. by rewrite app_nil_r.
  - apply Forall_cons in Hall as [Hvalue Hall]. simpl in Hvalue.
    destruct (resolve_entry_spec resolve_image_path (same_shape h0) input_dir
                one_line_data key value s d (same_shape_kept h0) Hs Hd)
      as (s1 & Hrun & _ & Hs1 & Hkind).
    rewrite for_each_cons, Hrun.
    rewrite (same_shape_kind h0 _ value Hs Hvalue) in Hkind.
    assert (∃ d1, rows (store s1) !! one_line_data = Some d1
                  ∧ trace s1 = trace s
                      ++ resolver_calls_for h0 input_dir (key, value))
      as (d1 & Hd1 & Htr1).
    { unfold resolver_calls_for. simpl.
      destruct (kind_in h0 value) as [items| |].
      - destruct Hkind as [-> ->]. rewrite lookup_insert_eq. eauto.
      - destruct Hkind as (-> & _ & ->). rewrite lookup_insert_eq. eauto.
      - subst s1. rewrite app_nil_r. eauto. }
    destruct (IH s1 d1 Hd1 Hs1 Hall) as (s' & Hrest & Htr).
    exists s'. split; [done|]. simpl. by rewrite Htr, Htr1, <- app_assoc.
Qed.

(** X1. With a resolver that keeps lists as they are and dicts dicts,
    the calls [_resolve_image] makes are, field by field in the order of
    the line: one call per item of a list, one call for a nested
    mapping, and none for any other value; each has [input_dir] as base.
    Items of lists inside lists and values inside nested mappings are
    not passed on their own. *)
Theorem resolve_image_calls (input_dir : Path) (one_line_data : loc)
    (s : State) (d : list (string * val)) :
  rows (store s) !! one_line_data = Some d →
  Forall (λ entry, allocated (heap (store s)) entry.2) d →
  ∃ s', _resolve_image resolve_image_path input_dir one_line_data s
        = (Ok one_line_data, s')
    ∧ trace s' = trace s
        ++ concat (resolver_calls_for (heap (store s)) input_dir <$> d).
Proof.
  intros Hd Hall. unfold _resolve_image.
  rewrite bind_run. unfold row_items at 1. rewrite Hd, bind_run.
  destruct (resolve_entries_calls (heap (store s)) input_dir one_line_data d s d
              Hd (same_shape_refl _) Hall) as (s' & -> & Htr).
  by exists s'.
Qed.

End ResolveImageCalls.

Section ResolveImageMapping.

Context (resolve_image_path :
  Path → val → FS → gmap loc obj → val * gmap loc obj).
Context (Hdicts : resolver_keeps_dicts resolve_image_path).

Lemma is_dict_kept (l : loc) :
  kept_by_resolver resolve_image_path
    (λ h, ∃ entries, h !! l = Some (ODict entries)).
Proof. intros input_dir value f h [entries Hl]. by eapply Hdicts. Qed.

Lemma anything_kept : kept_by_resolver resolve_image_path (λ _, True).
Proof. done. Qed.

(** X2. With a resolver that keeps dicts dicts, a field whose value is a
    nested mapping is passed to the resolver once, whole, with
    [input_dir] as base, when the loop reaches it, that is on the files
    and objects as the fields before it left them; after
    [_resolve_image] the field holds what that call returned: the
    result is stored, whether or not the resolver also rewrote the
    mapping in place. *)
Theorem resolve_image_mapping_field_replaced (input_dir : Path)
    (one_line_data : loc) (s : State) (before after : list (string * val))
    (key : string) (l : loc) (entries : list (string * val)) :
  rows (store s) !! one_line_data = Some (before ++ (key, VRef l) :: after) →
  NoDup (dict_keys (before ++ (key, VRef l) :: after)) →
  heap (store s) !! l = Some (ODict entries) →
  ∃ s_b s' d' rest,
    for_each (_resolve_image_entry resolve_image_path input_dir one_line_data)
      before s = (Ok (), s_b)
    ∧ _resolve_image resolve_image_path input_dir one_line_data s
      = (Ok one_line_data, s')
    ∧ trace s' = trace s_b ++ Eresolve_image_path input_dir (VRef l) :: rest
    ∧ rows (store s') !! one_line_data = Some d'
    ∧ dict_get key d'
      = Some (resolve_image_path input_dir (VRef l) (fs s_b)
                (heap (store s_b))).1.
Proof.
  intros Hd Hnd Hl.
  assert ((key ∉ before.*1) ∧ (key ∉ after.*1)) as [Hes1 Hes2].
  { unfold dict_keys in Hnd. rewrite fmap_app in Hnd. simpl in Hnd.
    apply NoDup_app in Hnd as (_ & Hbefore & [? _]%NoDup_cons). split; [|done].
    intros Hin. apply (Hbefore _ Hin). by left. }
  (* the fields before *)
  destruct (resolve_entries_other resolve_image_path _
              (is_dict_kept l)
              input_dir one_line_data key before s _ Hd
              (ex_intro _ entries Hl) Hes1)
    as (s1 & d1 & evs1 & Hrun1 & Hd1 & Hget1 & Hfs1 & [es Hl1] & Htr1).
  (* the field itself *)
  destruct (resolve_entry_spec resolve_image_path (λ _, True) input_dir
              one_line_data key (VRef l) s1 d1 anything_kept I Hd1)
    as (s2 & Hrun2 & Hfs2 & _ & Hkind).
  simpl in Hkind. rewrite Hl1 in Hkind. destruct Hkind as (Hrows2 & Hheap2 & Htr2).
  (* the fields after *)
  destruct (resolve_entries_other resolve_image_path _ anything_kept
              input_dir one_line_data key after s2
              (dict_setitem key
                 (resolve_image_path input_dir (VRef l) (fs s1)
                    (heap (store s1))).1 d1))
    as (s' & d' & evs3 & Hrun3 & Hd' & Hget' & Hfs' & _ & Htr');
    [by rewrite Hrows2, lookup_insert_eq | done | done |].
  exists s1, s', d', evs3. split; [done|].
  unfold _resolve_image. rewrite bind_run. unfold row_items at 1.
  rewrite Hd, bind_run.
  rewrite (for_each_app _ _ _ _ _ Hrun1), for_each_cons, Hrun2, Hrun3.
  split_and!; try done.
  - rewrite Htr', Htr2. by rewrite <- app_assoc.
  - by rewrite Hget', dict_get_setitem_eq.
Qed.

End ResolveImageMapping.

Section ResolveImageFrame.

Context (resolve_image_path :
  Path → val → FS → gmap loc obj → val * gmap loc obj).

(** X3. [_resolve_image] changes the line it is given and no other: every
    other line of the store is as it was, and no file is written. *)
Theorem resolve_image_touches_one_line (input_dir : Path)
    (one_line_data : loc) (s : State) (d : list (string * val)) :
  rows (store s) !! one_line_data = Some d →
  ∃ s', _resolve_image resolve_image_path input_dir one_line_data s
        = (Ok one_line_data, s')
    ∧ fs s' = fs s
    ∧ ∀ other, other ≠ one_line_data →
        rows (store s') !! other = rows (store s) !! other.
Proof.
  intros Hd.
  destruct (resolve_image_spec resolve_image_path (λ _, True) (λ _, False)
              ltac:(done) ltac:(done) input_dir one_line_data s d Hd I)
    as (s' & Hrun & _ & Hfs & _ & Hother & _).
  by exists s'.
Qed.

(** X4. On a line whose values are all scalars, [_resolve_image] does
    nothing: the resolver is not called and the state is as it was. *)
Theorem resolve_image_flat_line_untouched (input_dir : Path)
    (one_line_data : loc) (s : State) (d : list (string * val)) :
  rows (store s) !! one_line_data = Some d →
  Forall (λ entry, is_scalar entry.2) d →
  _resolve_image resolve_image_path input_dir one_line_data s
  = (Ok one_line_data, s).
Proof.
  intros Hd Hflat. unfold _resolve_image.
  rewrite bind_run. unfold row_items at 1. rewrite Hd, bind_run.
  assert (for_each (_resolve_image_entry resolve_image_path input_dir one_line_data)
            d s = (Ok (), s)) as ->; [|done].
  clear Hd. induction Hflat as [|[key value] entries Hvalue _ IH]; [done|].
  rewrite for_each_cons. unfold _resolve_image_entry at 1.
  rewrite bind_run. unfold kind_of. simpl in Hvalue.
  by rewrite (kind_in_scalar _ _ Hvalue), ret_run.
Qed.

(** X5. Resolving the lines of a source keeps the field names of every
    line in the store, those of the source and all others: each line is
    still there afterwards, with the names it had, in the same order. *)
Theorem lines_resolved_keep_field_names (input_dir : Path)
    (lines : list loc) (s s' : State) (line : loc) (d : list (string * val)) :
  lines_resolved resolve_image_path input_dir s lines s' →
  rows (store s) !! line = Some d →
  ∃ d', rows (store s') !! line = Some d' ∧ dict_keys d' = dict_keys d.
Proof.
  intros Hlines. revert d.
  induction Hlines as [s|s s1 s2 resolved lines Hrun _ IH]; intros d Hd; [eauto|].
  destruct (rows (store s) !! resolved) as [d0|] eqn:Hd0.
  - destruct (resolve_image_spec resolve_image_path (λ _, True) (λ _, False)
                ltac:(done) ltac:(done) input_dir resolved s d0 Hd0 I)
      as (s1' & Hrun' & (d0' & d1 & Hd0' & Hd1 & Hkeys & _) & _ & _ & Hother & _).
    rewrite Hrun in Hrun'. injection Hrun' as <-.
    destruct (decide (line = resolved)) as [->|Hne].
    + destruct (IH d1 Hd1) as (d' & Hd' & Hkeys'). exists d'.
      split; [done|]. congruence.
    + apply IH. by rewrite Hother.
  - by rewrite resolve_image_missing in Hrun.
Qed.

End ResolveImageFrame.

(** ** More on the input loader *)

Lemma dict_setitem_fresh {V : Type} (key : string) (v : V) (d : list (string * V)) :
  key ∉ dict_keys d → dict_setitem key v d = d ++ [(key, v)].
Proof.
  unfold dict_keys. induction d as [|[k x] d IH]; simpl; [done|].
  intros [Hne Hnotin]%not_elem_of_cons.
  rewrite decide_False by done. by rewrite IH.
Qed.

Section ResolveDataMore.

Context (working_dir : Path).
Context (load_data : Path → FS → Store → Result (list loc) * Store).
Context (resolve_image_path :
  Path → val → FS → gmap loc obj → val * gmap loc obj).

Local Abbreviation resolve_data_loop :=
  (_resolve_data_loop working_dir load_data resolve_image_path).

(** The loop over the sources adds one entry per source to the dict
    built so far, in order and under the source's name. *)
Lemma resolve_data_loop_entries (items : list (string * StrOrPath))
    (result data : list (string * list loc)) (s s' : State) :
  resolve_data_loop items result s = (Ok data, s') →
  NoDup items.*1 →
  (∀ k, k ∈ items.*1 → k ∉ dict_keys result) →
  ∃ tail, data = result ++ tail ∧ tail.*1 = items.*1.
Proof.
  revert result s. induction items as [|[key dir] items IH]; intros result s.
  - intros [= <- _] _ _. exists []. by rewrite app_nil_r.
  - simpl. intros (lines & s1 & Hload & Hrest)%bind_Ok_inv
      [Hkey Hnd]%NoDup_cons Hfresh.
    apply bind_Ok_inv in Hrest as ([] & s2 & _ & Hrest).
    rewrite dict_setitem_fresh in Hrest by (apply Hfresh; left).
    destruct (IH _ _ Hrest Hnd) as (tail & -> & Htail).
    { intros k Hk. unfold dict_keys. rewrite fmap_app.
      intros [?|?%list_elem_of_singleton]%elem_of_app.
      - by apply (Hfresh k); [right|].
      - simpl in *. by subst. }
    exists ((key, lines) :: tail). split; [by rewrite <- app_assoc|].
    simpl. by f_equal.
Qed.

(** A loop that returns has gone through the first sources, and then
    through the others from where the first left off. *)
Lemma resolve_data_loop_split (before rest : list (string * StrOrPath))
    (result data : list (string * list loc)) (s s' : State) :
  resolve_data_loop (before ++ rest) result s = (Ok data, s') →
  ∃ result1 s1,
    resolve_data_loop before result s = (Ok result1, s1)
    ∧ resolve_data_loop rest result1 s1 = (Ok data, s').
Proof.
  revert result s. induction before as [|[key dir] before IH]; intros result s.
  - intros Hrun. by exists result, s.
  - simpl. intros (lines & s1 & Hload & Hrest)%bind_Ok_inv.
    apply bind_Ok_inv in Hrest as ([] & s2 & Hlines & Hrest).
    destruct (IH _ _ Hrest) as (result1 & s3 & Hbefore & Hafter).
    exists result1, s3. split; [|done].
    by rewrite bind_run, Hload, bind_run, Hlines.
Qed.

(** X6. [_resolve_data] returns one entry per source, in the order of
    the sources and under the source's name. The entry of the source at
    position [i] holds the very list of lines that [load_data] returned
    for the source's resolved directory, when called after the sources
    before it had been loaded and resolved; and those sources made the
    first [i] entries. *)
Theorem resolve_data_one_entry_per_source
    (input_dirs : list (string * StrOrPath)) (s s' : State)
    (data : list (string * list loc)) :
  NoDup input_dirs.*1 →
  _resolve_data working_dir load_data resolve_image_path input_dirs s
    = (Ok data, s') →
  dict_keys data = input_dirs.*1
  ∧ ∀ i source, input_dirs !! i = Some source →
      ∃ s_i file_data,
        _resolve_data working_dir load_data resolve_image_path
          (take i input_dirs) s = (Ok (take i data), s_i)
        ∧ (load_data (_resolve_dir working_dir source.2) (fs s_i) (store s_i)).1
          = Ok file_data
        ∧ data !! i = Some (source.1, file_data).
Proof.
  intros Hnd Hrun. split.
  - destruct (resolve_data_loop_entries input_dirs [] data s s' Hrun Hnd)
      as (tail & -> & Htail); [|done].
    intros k _. apply not_elem_of_nil.
  - intros i [key dir] Hi. unfold _resolve_data in *.
    pose proof (take_drop_middle _ _ _ Hi) as Heq.
    assert (length (take i input_dirs) = i) as Hlen.
    { apply lookup_lt_Some in Hi. rewrite length_take. lia. }
    revert Hnd Hrun Hlen. rewrite <- Heq at 1 2.
    generalize (take i input_dirs) (drop (S i) input_dirs).
    clear Heq Hi. intros before rest Hnd Hrun Hlen.
    rewrite fmap_app in Hnd. simpl in Hnd.
    apply NoDup_app in Hnd as (Hnd1 & Hdisj & [Hkey Hnd2]%NoDup_cons).
    apply resolve_data_loop_split in Hrun as (result1 & s1 & Hbefore & Hrest).
    destruct (resolve_data_loop_entries before [] result1 s s1 Hbefore Hnd1)
      as (tail1 & -> & Htail1); [intros k _; apply not_elem_of_nil|].
    simpl in *.
    apply bind_Ok_inv in Hrest as (lines & s2 & Hload & Hrest).
    apply bind_Ok_inv in Hrest as ([] & s3 & _ & Hrest).
    assert (key ∉ dict_keys tail1) as Hfresh.
    { unfold dict_keys. rewrite Htail1. intros Hin. apply (Hdisj _ Hin). by left. }
    rewrite dict_setitem_fresh in Hrest by done.
    destruct (resolve_data_loop_entries rest _ data s3 s' Hrest Hnd2)
      as (tail2 & -> & _).
    { intros k Hk. unfold dict_keys. rewrite fmap_app, Htail1.
      intros [Hin|?%list_elem_of_singleton]%elem_of_app.
      - apply (Hdisj _ Hin). by right.
      - simpl in *. by subst. }
    assert (length tail1 = i) as Hlen1.
    { rewrite <- Hlen, <- (length_fmap fst tail1), Htail1. by rewrite length_fmap. }
    rewrite call_load_data_run in Hload. injection Hload as Hload _.
    exists s1, lines. split_and!.
    + rewrite <- app_assoc, take_app_length' by done. done.
    + done.
    + rewrite <- app_assoc. by rewrite lookup_app_r, Hlen1, Nat.sub_diag by lia.
Qed.

(** X7. With an absolute working directory, every directory that
    [_resolve_data] hands to [load_data] and every base directory it
    hands to the media resolver is absolute, however the sources were
    given. *)
Theorem resolve_data_dirs_absolute
    (input_dirs : list (string * StrOrPath)) (s s' : State)
    (data : list (string * list loc)) :
  is_absolute working_dir = true →
  _resolve_data working_dir load_data resolve_image_path input_dirs s
    = (Ok data, s') →
  ∃ evs, trace s' = trace s ++ evs
    ∧ Forall (λ e,
        match e with
        | Eload_data dir => is_absolute dir = true
        | Eresolve_image_path input_dir _ => is_absolute input_dir = true
        | _ => False
        end) evs.
Proof.
  intros Hwd Hrun.
  pose proof (resolve_data_loop_Ok_inv working_dir load_data resolve_image_path
                input_dirs [] data s s' Hrun) as Hsrc.
  destruct (sources_resolved_trace working_dir load_data resolve_image_path
              input_dirs s s' Hsrc)
    as (_ & segments & Htr & Hsegs).
  exists (concat segments). split; [done|].
  apply Forall_concat. clear Htr Hrun Hsrc.
  induction Hsegs as [|source segment ? ? (evs & -> & Hevs) _ IH].
  - constructor.
  - constructor; [|done]. constructor.
    + by apply resolve_dir_is_absolute.
    + eapply Forall_impl; [exact Hevs|]. intros ? [v ->].
      by apply resolve_dir_is_absolute.
Qed.

End ResolveDataMore.

(** ** Errors *)

Section Errors.

Context {Meta : Type}.
Context (working_dir : Path).
Context (load_data : Path → FS → Store → Result (list loc) * Store).
Context (resolve_image_path :
  Path → val → FS → gmap loc obj → val * gmap loc obj).
Context (validate_and_apply_inputs_mapping :
  list (string * list loc) → list (string * string) → Store →
  Result (list loc) * Store).
Context (exec_bulk :
  list loc → option string → Path → Store * FS →
  Result (BulkResult Meta) * (Store * FS)).
Context (persist_multimedia_data :
  loc → Path → Store * FS → Result loc * (Store * FS)).
Context (json_dumps : Store → loc → string).
Context (writable : FS → Path → bool).

Local Abbreviation resolve_data_loop :=
  (_resolve_data_loop working_dir load_data resolve_image_path).
Local Abbreviation get_input_dicts :=
  (_get_input_dicts working_dir load_data resolve_image_path
     validate_and_apply_inputs_mapping).
Local Abbreviation persist_outputs :=
  (_persist_outputs persist_multimedia_data json_dumps writable).
Local Abbreviation engine_run :=
  (run working_dir load_data resolve_image_path
     validate_and_apply_inputs_mapping exec_bulk persist_multimedia_data
     json_dumps writable).

Lemma lines_resolved_run (input_dir : Path) (lines : list loc) (s s' : State) :
  lines_resolved resolve_image_path input_dir s lines s' →
  for_each (λ each_line,
    _ ← _resolve_image resolve_image_path input_dir each_line; mret ()) lines s
  = (Ok (), s').
Proof.
  induction 1 as [s|s s1 s2 line lines Hline _ IH]; [done|].
  by rewrite for_each_cons, bind_run, Hline, ret_run.
Qed.

(** The loop over the sources, once the first of them are done, goes on
    with the rest. *)
Lemma resolve_data_loop_app (before rest : list (string * StrOrPath))
    (result : list (string * list loc)) (s s1 : State) :
  sources_resolved working_dir load_data resolve_image_path s before s1 →
  ∃ result', resolve_data_loop (before ++ rest) result s
             = resolve_data_loop rest result' s1.
Proof.
  intros Hbefore. revert result.
  induction Hbefore as [s|s s1 s2 s3 key dir lines before Hload Hlines _ IH];
    intros result.
  - by exists result.
  - destruct (IH (dict_setitem key lines result)) as [result' Hrest].
    exists result'. simpl.
    by rewrite bind_run, Hload, bind_run, (lines_resolved_run _ _ _ _ Hlines).
Qed.

Lemma while_loading_before_execution (evs : list Event) :
  Forall while_loading evs → Forall before_execution evs.
Proof. intros H. eapply Forall_impl; [exact H|]. by intros []. Qed.

Lemma segments_while_loading (sources : list (string * StrOrPath))
    (segments : list (list Event)) :
  Forall2 (λ source segment,
    ∃ evs, segment = Eload_data (_resolve_dir working_dir source.2) :: evs
      ∧ Forall (calls_resolver_at (_resolve_dir working_dir source.2)) evs)
    sources segments →
  Forall while_loading (concat segments).
Proof.
  intros Hsegs. apply Forall_concat.
  induction Hsegs as [|source segment ? ? (evs & -> & Hevs) _ IH].
  - constructor.
  - constructor; [|done]. constructor; [done|].
    eapply Forall_impl; [exact Hevs|]. by intros ? [v ->].
Qed.

(** X8. When [load_data] raises for a source, [run] raises the same
    error. The sources before it have been loaded and resolved, the
    failed load is the last call made: the sources after it are not
    loaded, the mapper and the executor are not called, nothing is
    persisted or dumped, and no file has been written. *)
Theorem run_load_error_stops_run
    (before rest : list (string * StrOrPath)) (input_key : string)
    (input_dir : StrOrPath) (inputs_mapping : list (string * string))
    (output_dir : StrOrPath) (run_id : option string) (s s1 : State) (e : exn) :
  sources_resolved working_dir load_data resolve_image_path s before s1 →
  (load_data (_resolve_dir working_dir input_dir) (fs s1) (store s1)).1
    = Raise e →
  ∃ s', engine_run (before ++ (input_key, input_dir) :: rest) inputs_mapping
          output_dir run_id s = (Raise e, s')
    ∧ fs s' = fs s
    ∧ trace s' = trace s1 ++ [Eload_data (_resolve_dir working_dir input_dir)]
    ∧ ∃ evs, trace s' = trace s ++ evs ∧ Forall before_execution evs.
Proof.
  intros Hbefore Hload.
  destruct (resolve_data_loop_app before ((input_key, input_dir) :: rest) [] s s1
              Hbefore)
    as [result' Hloop].
  unfold run, _get_input_dicts, _resolve_data.
  rewrite !bind_run, Hloop. simpl.
  rewrite bind_run, call_load_data_run, Hload. simpl.
  eexists. split; [reflexivity|]. simpl.
  destruct (sources_resolved_trace working_dir load_data resolve_image_path
              before s s1 Hbefore)
    as (Hfs & segments & Htr & Hsegs).
  split_and!; [done|done|].
  exists (concat segments ++ [Eload_data (_resolve_dir working_dir input_dir)]).
  split; [by rewrite Htr, app_assoc|].
  apply Forall_app. split; [|by apply Forall_singleton].
  by apply while_loading_before_execution, (segments_while_loading before).
Qed.

(** What [_get_input_dicts] has done when it returns: no file written;
    loads and media resolutions, then one call of the mapper. *)
Lemma get_input_dicts_Ok_inv (input_dirs : list (string * StrOrPath))
    (inputs_mapping : list (string * string)) (s s1 : State)
    (input_dicts : list loc) :
  get_input_dicts input_dirs inputs_mapping s = (Ok input_dicts, s1) →
  fs s1 = fs s
  ∧ ∃ data loading,
      trace s1 = trace s ++ loading
        ++ [Evalidate_and_apply_inputs_mapping data inputs_mapping]
      ∧ Forall while_loading loading
      ∧ (validate_and_apply_inputs_mapping data inputs_mapping
           (store (_resolve_data working_dir load_data resolve_image_path
                     input_dirs s).2)).1 = Ok input_dicts.
Proof.
  unfold _get_input_dicts.
  intros (data & s0 & Hdata & Hmap)%bind_Ok_inv.
  rewrite Hdata. simpl.
  rewrite call_mapping_run in Hmap. injection Hmap as Hres <-. simpl.
  pose proof (resolve_data_loop_Ok_inv working_dir load_data resolve_image_path
                input_dirs [] data s s0 Hdata) as Hsrc.
  destruct (sources_resolved_trace working_dir load_data resolve_image_path
              input_dirs s s0 Hsrc)
    as (Hfs & segments & Htr & Hsegs).
  split; [done|]. exists data, (concat segments).
  split_and!; [by rewrite Htr, app_assoc | by eapply segments_while_loading | done].
Qed.

(** X9. When [exec_bulk] raises, [run] raises the same error in the
    state [exec_bulk] left: the call of [exec_bulk] is the last call
    made, so no output is persisted and [output.jsonl] is not dumped. *)
Theorem run_execution_error_skips_persistence
    (input_dirs : list (string * StrOrPath))
    (inputs_mapping : list (string * string)) (output_dir : StrOrPath)
    (run_id : option string) (s s1 : State) (input_dicts : list loc) (e : exn) :
  get_input_dicts input_dirs inputs_mapping s = (Ok input_dicts, s1) →
  (exec_bulk input_dicts run_id (_resolve_dir working_dir output_dir)
     (store s1, fs s1)).1 = Raise e →
  ∃ s', engine_run input_dirs inputs_mapping output_dir run_id s = (Raise e, s')
    ∧ (store s', fs s')
      = (exec_bulk input_dicts run_id (_resolve_dir working_dir output_dir)
           (store s1, fs s1)).2
    ∧ ∃ evs, Forall before_execution evs
        ∧ trace s' = trace s ++ evs
            ++ [Eexec_bulk input_dicts run_id (_resolve_dir working_dir output_dir)].
Proof.
  intros Hin Hexec.
  destruct (get_input_dicts_Ok_inv _ _ _ _ _ Hin)
    as (_ & data & loading & Htr & Hloading & _).
  unfold run. rewrite bind_run, Hin, bind_run, call_exec_bulk_run, Hexec.
  eexists. split; [reflexivity|]. simpl. split.
  - by destruct (exec_bulk _ _ _ _) as [? []].
  - exists (loading ++ [Evalidate_and_apply_inputs_mapping data inputs_mapping]).
    split.
    + apply Forall_app. split; [by apply while_loading_before_execution|].
      by apply Forall_singleton.
    + by rewrite Htr, <- !app_assoc.
Qed.

(** A file that no call of the persister writes is, after the records
    have been persisted, as it was. *)
Lemma persisted_keeps_file (output_dir file : Path) (w w' : Store * FS)
    (outputs res : list loc) :
  (∀ o w0, (persist_multimedia_data o output_dir w0).2.2 !! file = w0.2 !! file) →
  persisted persist_multimedia_data output_dir w outputs res w' →
  w'.2 !! file = w.2 !! file.
Proof.
  intros Hkeeps. induction 1 as [w|w w1 w2 o o' outs res Hcall _ IH]; [done|].
  rewrite IH. specialize (Hkeeps o w). by rewrite Hcall in Hkeeps.
Qed.

(** X10. When [persist_multimedia_data] raises for an output record,
    [_persist_outputs] raises the same error there: the records before
    it have been persisted and stay so, the records after it are not,
    and [dump_list_to_jsonl] is not called. The store and the files are
    as the failed call left them: [output.jsonl] holds what it held
    before [_persist_outputs], provided [persist_multimedia_data] does
    not itself write that file. *)
Theorem persist_outputs_media_error_skips_dump
    (before rest res : list loc) (output : loc) (output_dir : Path)
    (s : State) (w : Store * FS) (e : exn) :
  persisted persist_multimedia_data output_dir (store s, fs s) before res w →
  (persist_multimedia_data output output_dir w).1 = Raise e →
  ∃ s', persist_outputs (before ++ output :: rest) output_dir s = (Raise e, s')
    ∧ (store s', fs s') = (persist_multimedia_data output output_dir w).2
    ∧ trace s' = trace s
        ++ ((λ o, Epersist_multimedia_data o output_dir) <$> (before ++ [output]))
    ∧ ((∀ o w0,
          (persist_multimedia_data o output_dir w0).2.2
            !! (output_dir / of_string OUTPUT_FILE_NAME)%path
          = w0.2 !! (output_dir / of_string OUTPUT_FILE_NAME)%path) →
       fs s' !! (output_dir / of_string OUTPUT_FILE_NAME)%path
       = fs s !! (output_dir / of_string OUTPUT_FILE_NAME)%path).
Proof.
  intros Hbefore Hfail.
  assert (∀ rest' s0 w0 res0,
    persisted persist_multimedia_data output_dir (store s0, fs s0) before res0 w0 →
    (persist_multimedia_data output output_dir w0).1 = Raise e →
    comprehension
      (λ o, call_persist_multimedia_data persist_multimedia_data o output_dir)
      (before ++ output :: rest') s0
    = (Raise e,
       mkState (persist_multimedia_data output output_dir w0).2.1
         (persist_multimedia_data output output_dir w0).2.2
         (trace s0 ++ ((λ o, Epersist_multimedia_data o output_dir)
                         <$> (before ++ [output]))))) as Hcomp.
  { clear. intros rest' s0 w0 res0 Hp. remember (store s0, fs s0) as w1 eqn:Hw1.
    revert s0 Hw1.
    induction Hp as [w|w wa wb o o' outs res Hcall _ IH]; intros s0 -> Hfail.
    - simpl. by rewrite bind_run, call_persist_run, Hfail.
    - simpl. rewrite bind_run, call_persist_run, Hcall. simpl.
      rewrite bind_run, (IH (mkState wa.1 wa.2 _)) by (done || by destruct wa).
      simpl. by rewrite <- app_assoc. }
  unfold _persist_outputs. rewrite bind_run, (Hcomp rest s w res Hbefore Hfail).
  eexists. split; [reflexivity|]. simpl. split_and!; [|done|].
  - by destruct (persist_multimedia_data output output_dir w) as [? []].
  - intros Hkeeps. rewrite Hkeeps.
    apply (persisted_keeps_file _ _ _ _ _ _ Hkeeps Hbefore).
Qed.

(** X11. A run that returns has made these calls and no others, in this
    order: the loads and media resolutions of [_resolve_data] on the
    sources; the mapper, once, with what [_resolve_data] returned and
    the mapping as given; [exec_bulk], once, with what the mapper
    returned, the run id as given and the resolved output directory, in
    the state the mapper left; [persist_multimedia_data], once per
    output of that [exec_bulk], in order, with that same directory; and
    the dump of the returned outputs to [output.jsonl] in that same
    directory. *)
Theorem run_call_order
    (input_dirs : list (string * StrOrPath))
    (inputs_mapping : list (string * string)) (output_dir : StrOrPath)
    (run_id : option string) (s s' : State) (result : BulkResult Meta) :
  engine_run input_dirs inputs_mapping output_dir run_id s = (Ok result, s') →
  ∃ data s0 loading input_dicts s1 (batch_result : BulkResult Meta),
    _resolve_data working_dir load_data resolve_image_path input_dirs s
      = (Ok data, s0)
    ∧ trace s0 = trace s ++ loading
    ∧ Forall while_loading loading
    ∧ call_validate_and_apply_inputs_mapping validate_and_apply_inputs_mapping
        data inputs_mapping s0 = (Ok input_dicts, s1)
    ∧ (exec_bulk input_dicts run_id (_resolve_dir working_dir output_dir)
         (store s1, fs s1)).1 = Ok batch_result
    ∧ trace s' = trace s ++ loading
        ++ [Evalidate_and_apply_inputs_mapping data inputs_mapping;
            Eexec_bulk input_dicts run_id (_resolve_dir working_dir output_dir)]
        ++ ((λ o, Epersist_multimedia_data o (_resolve_dir working_dir output_dir))
              <$> outputs batch_result)
        ++ [Edump_list_to_jsonl
              (_resolve_dir working_dir output_dir / of_string OUTPUT_FILE_NAME)%path
              (outputs result)].
Proof.
  intros (input_dicts & s1 & batch_result & Hin & Hexec & Hpersist & _)%run_Ok_inv.
  unfold _get_input_dicts in Hin.
  apply bind_Ok_inv in Hin as (data & s0 & Hdata & Hmap).
  pose proof (resolve_data_loop_Ok_inv working_dir load_data resolve_image_path
                input_dirs [] data s s0 Hdata) as Hsrc.
  destruct (sources_resolved_trace working_dir load_data resolve_image_path
              input_dirs s s0 Hsrc)
    as (_ & segments & Htr0 & Hsegs).
  apply persist_outputs_Ok_inv in Hpersist as (w & _ & _ & _ & Htr).
  exists data, s0, (concat segments), input_dicts, s1, batch_result.
  split_and!; [done | done | by eapply segments_while_loading | done | done |].
  rewrite Htr. unfold after_execution. rewrite call_exec_bulk_run. simpl.
  rewrite call_mapping_run in Hmap. injection Hmap as _ <-. simpl.
  rewrite Htr0. by rewrite <- !app_assoc.
Qed.

End Errors.

(** ** More on the path resolver *)

(** X12. With a relative working directory, [_resolve_dir] of a
    relative path is relative again, and resolving it a second time puts
    the working directory in front once more: unless the working
    directory is empty, the second result differs from the first. *)
Theorem resolve_dir_relative_root_repeats (working_dir : Path) (dir : StrOrPath) :
  is_absolute working_dir = false →
  is_absolute (as_path dir) = false →
  is_absolute (_resolve_dir working_dir dir) = false
  ∧ parts (_resolve_dir working_dir (APath (_resolve_dir working_dir dir)))
    = parts working_dir ++ parts working_dir ++ parts (as_path dir)
  ∧ (parts working_dir ≠ [] →
     _resolve_dir working_dir (APath (_resolve_dir working_dir dir))
     ≠ _resolve_dir working_dir dir).
Proof.
  intros Hwd Hdir.
  assert (_resolve_dir working_dir dir = (working_dir / as_path dir)%path) as Hone.
  { unfold _resolve_dir. by rewrite Hdir. }
  assert (is_absolute (_resolve_dir working_dir dir) = false) as Hrel.
  { by rewrite Hone, is_absolute_truediv, Hwd, Hdir. }
  assert (parts (_resolve_dir working_dir (APath (_resolve_dir working_dir dir)))
          = parts working_dir ++ parts working_dir ++ parts (as_path dir)) as Htwo.
  { unfold _resolve_dir at 1. simpl. rewrite Hrel. simpl.
    unfold truediv at 1. rewrite Hrel. simpl.
    rewrite Hone. unfold truediv. by rewrite Hdir. }
  split_and!; [done|done|].
  intros Hne Heq. rewrite Heq in Htwo. rewrite Hone in Htwo.
  unfold truediv in Htwo. rewrite Hdir in Htwo. simpl in Htwo.
  apply (f_equal length) in Htwo. rewrite !length_app in Htwo.
  destruct (parts working_dir); [done | simpl in Htwo; lia].
Qed.


(** ** The further properties at the small batch *)

Import Doubles Sample Failing More.

Lemma resolve_in_place_keeps_dicts : resolver_keeps_dicts resolve_in_place.
Proof.
  intros input_dir value f h l entries Hl. unfold resolve_in_place.
  destruct value as [| | | |l']; eauto.
  destruct (h !! l' ≫= media_reference) as [[k p]|]; simpl; eauto.
  destruct (decide (l' = l)) as [->|Hne].
  - rewrite lookup_insert_eq. unfold resolved_reference. eauto.
  - rewrite lookup_insert_ne by done. eauto.
Qed.

Lemma resolve_returning_keeps_dicts : resolver_keeps_dicts resolve_returning.
Proof.
  intros input_dir value f h l entries Hl. exists entries.
  by apply resolve_returning_returns_only.
Qed.

Lemma resolve_image_calls_witness :
  concat (resolver_calls_for objects docs <$> doc_line)
    = [Eresolve_image_path docs (VRef 1%positive);
       Eresolve_image_path docs (VStr "caption");
       Eresolve_image_path docs (VRef 3%positive)]
  ∧ ∃ s', _resolve_image resolve_in_place docs 10%positive state
          = (Ok 10%positive, s')
      ∧ trace s' = trace state
          ++ concat (resolver_calls_for (heap (store state)) docs <$> doc_line).
Proof.
  split; [vm_compute; reflexivity|].
  apply (resolve_image_calls resolve_in_place resolve_in_place_keeps_lists
           resolve_in_place_keeps_dicts docs 10%positive state doc_line).
  - reflexivity.
  - repeat constructor; simpl; eexists; reflexivity.
Defined.

Lemma resolve_image_mapping_field_replaced_witness :
  rows (store (_resolve_image resolve_returning docs 10%positive state).2)
    !! 10%positive
  = Some [("text", VStr "hello"); ("images", VRef 2%positive);
          ("photo", VRef 6%positive)]
  ∧ ∃ s_b s' d' rest,
    for_each (_resolve_image_entry resolve_returning docs 10%positive)
      [("text", VStr "hello"); ("images", VRef 2%positive)] state = (Ok (), s_b)
    ∧ _resolve_image resolve_returning docs 10%positive state
      = (Ok 10%positive, s')
    ∧ trace s' = trace s_b ++ Eresolve_image_path docs (VRef 3%positive) :: rest
    ∧ rows (store s') !! 10%positive = Some d'
    ∧ dict_get "photo" d'
      = Some (resolve_returning docs (VRef 3%positive) (fs s_b)
                (heap (store s_b))).1.
Proof.
  split; [vm_compute; reflexivity|].
  apply (resolve_image_mapping_field_replaced resolve_returning
           resolve_returning_keeps_dicts docs 10%positive state
           [("text", VStr "hello"); ("images", VRef 2%positive)] []
           "photo" 3%positive [("data:image/png;path", VStr "cat.png")]).
  - reflexivity.
  - apply (bool_decide_unpack _). vm_compute. exact I.
  - reflexivity.
Defined.

Lemma resolve_image_touches_one_line_witness :
  ∃ s', _resolve_image resolve_in_place docs 10%positive state
        = (Ok 10%positive, s')
    ∧ fs s' = fs state
    ∧ ∀ other, other ≠ 10%positive →
        rows (store s') !! other = rows (store state) !! other.
Proof.
  apply (resolve_image_touches_one_line resolve_in_place docs 10%positive
           state doc_line).
  reflexivity.
Defined.

Lemma resolve_data_one_entry_per_source_witness :
  (Sample.load_all state).1
    = Ok [("docs", [10%positive]); ("images", [11%positive])]
  ∧ dict_keys [("docs", [10%positive]); ("images", [11%positive])]
    = input_dirs.*1
  ∧ ∀ i source, input_dirs !! i = Some source →
      ∃ s_i file_data,
        _resolve_data working_dir (load_table table) resolve_in_place
          (take i input_dirs) state
        = (Ok (take i [("docs", [10%positive]); ("images", [11%positive])]), s_i)
        ∧ (load_table table (_resolve_dir working_dir source.2) (fs s_i)
             (store s_i)).1 = Ok file_data
        ∧ [("docs", [10%positive]); ("images", [11%positive])] !! i
          = Some (source.1, file_data).
Proof.
  split; [vm_compute; reflexivity|].
  apply (resolve_data_one_entry_per_source working_dir (load_table table)
           resolve_in_place input_dirs state (Sample.load_all state).2
           [("docs", [10%positive]); ("images", [11%positive])]).
  - apply (bool_decide_unpack _). vm_compute. exact I.
  - vm_compute. reflexivity.
Defined.

Lemma resolve_data_dirs_absolute_witness :
  is_absolute working_dir = true
  ∧ (Sample.load_all state).1
    = Ok [("docs", [10%positive]); ("images", [11%positive])]
  ∧ ∃ evs, trace (Sample.load_all state).2 = trace state ++ evs
      ∧ Forall (λ e,
          match e with
          | Eload_data dir => is_absolute dir = true
          | Eresolve_image_path input_dir _ => is_absolute input_dir = true
          | _ => False
          end) evs.
Proof.
  split; [reflexivity|]. split; [vm_compute; reflexivity|].
  apply (resolve_data_dirs_absolute working_dir (load_table table)
           resolve_in_place input_dirs state (Sample.load_all state).2
           [("docs", [10%positive]); ("images", [11%positive])]).
  - reflexivity.
  - vm_compute. reflexivity.
Defined.

Lemma after_docs_resolved :
  sources_resolved working_dir (load_table table) resolve_in_place
    state [("docs", AStr "data/docs")] after_docs.
Proof.
  apply (resolve_data_loop_Ok_inv working_dir (load_table table) resolve_in_place
           [("docs", AStr "data/docs")] [] [("docs", [10%positive])]).
  vm_compute. reflexivity.
Qed.

Lemma run_load_error_stops_run_witness :
  ∃ s', run_ghost state
        = (Raise (DataSourceError "/work/flow/nowhere"), s')
    ∧ fs s' = fs state
    ∧ trace s' = trace after_docs
        ++ [Eload_data (_resolve_dir working_dir (AStr "nowhere"))]
    ∧ ∃ evs, trace s' = trace state ++ evs ∧ Forall before_execution evs.
Proof.
  apply (run_load_error_stops_run working_dir (load_table table)
           resolve_in_place map_sources exec_echo persist_copy dumps_keys
           always_writable [("docs", AStr "data/docs")]
           [("images", AStr "/mnt/images")] "ghost" (AStr "nowhere")
           inputs_mapping (AStr "out") (Some "run-1") state after_docs
           (DataSourceError "/work/flow/nowhere")).
  - exact after_docs_resolved.
  - vm_compute. reflexivity.
Defined.

Lemma run_execution_error_skips_persistence_witness :
  (mapped state).1 = Ok [10%positive]
  ∧ ∃ s', run_refused state = (Raise (ExecutionError "flow failed"), s')
      ∧ (store s', fs s')
        = (exec_refusing [10%positive] (Some "run-1")
             (_resolve_dir working_dir (AStr "out"))
             (store (mapped state).2, fs (mapped state).2)).2
      ∧ ∃ evs, Forall before_execution evs
          ∧ trace s' = trace state ++ evs
              ++ [Eexec_bulk [10%positive] (Some "run-1")
                    (_resolve_dir working_dir (AStr "out"))].
Proof.
  split; [vm_compute; reflexivity|].
  apply (run_execution_error_skips_persistence working_dir (load_table table)
           resolve_in_place map_sources exec_refusing persist_copy dumps_keys
           always_writable input_dirs inputs_mapping (AStr "out")
           (Some "run-1") state (mapped state).2 [10%positive]
           (ExecutionError "flow failed")).
  - vm_compute. reflexivity.
  - reflexivity.
Defined.

Lemma first_persisted_ok :
  persisted (persist_copy_except 11%positive) out (store state, fs state)
    [10%positive] [12%positive]
    (store (first_persisted state).2, fs (first_persisted state).2).
Proof.
  apply (comprehension_persist_Ok_inv (persist_copy_except 11%positive) out
           [10%positive] [12%positive] state (first_persisted state).2).
  vm_compute. reflexivity.
Qed.

Lemma persist_copy_except_keeps_files (bad o : loc) (base_dir : Path)
    (w : Store * FS) :
  (persist_copy_except bad o base_dir w).2.2 = w.2.
Proof.
  unfold persist_copy_except, persist_copy.
  case_decide; [done|]. by destruct (rows w.1 !! o).
Qed.

Lemma persist_outputs_media_error_skips_dump_witness :
  fs state !! (out / of_string OUTPUT_FILE_NAME)%path
  = Some ["stale"; "stale"; "stale"]
  ∧ ∃ s', persist_failing state = (Raise (PersistenceError "disk full"), s')
    ∧ (store s', fs s')
      = (persist_copy_except 11%positive 11%positive out
           (store (first_persisted state).2, fs (first_persisted state).2)).2
    ∧ trace s' = trace state
        ++ ((λ o, Epersist_multimedia_data o out)
              <$> ([10%positive] ++ [11%positive]))
    ∧ fs s' !! (out / of_string OUTPUT_FILE_NAME)%path
      = fs state !! (out / of_string OUTPUT_FILE_NAME)%path.
Proof.
  split; [vm_compute; reflexivity|].
  destruct (persist_outputs_media_error_skips_dump (persist_copy_except 11%positive)
           dumps_keys always_writable [10%positive] [10%positive] [12%positive]
           11%positive out state
           (store (first_persisted state).2, fs (first_persisted state).2)
           (PersistenceError "disk full") first_persisted_ok eq_refl)
    as (s' & Hrun & Hworld & Htrace & Hfile).
  exists s'. split_and!; [exact Hrun | exact Hworld | exact Htrace |].
  apply Hfile. intros o w0. by rewrite persist_copy_except_keeps_files.
Defined.

Lemma run_call_order_witness :
  (Sample.run_batch inputs_mapping state).1 = Ok (mkBulkResult [12%positive] 1)
  ∧ ∃ data s0 loading input_dicts s1 (batch_result : BulkResult nat),
      _resolve_data working_dir (load_table table) resolve_in_place input_dirs
        state = (Ok data, s0)
      ∧ trace s0 = trace state ++ loading
      ∧ Forall while_loading loading
      ∧ call_validate_and_apply_inputs_mapping map_sources data inputs_mapping s0
        = (Ok input_dicts, s1)
      ∧ (exec_echo input_dicts (Some "run-1")
           (_resolve_dir working_dir (AStr "out")) (store s1, fs s1)).1
        = Ok batch_result
      ∧ trace (Sample.run_batch inputs_mapping state).2 = trace state ++ loading
          ++ [Evalidate_and_apply_inputs_mapping data inputs_mapping;
              Eexec_bulk input_dicts (Some "run-1")
                (_resolve_dir working_dir (AStr "out"))]
          ++ ((λ o, Epersist_multimedia_data o
                      (_resolve_dir working_dir (AStr "out")))
                <$> outputs batch_result)
          ++ [Edump_list_to_jsonl
                (_resolve_dir working_dir (AStr "out")
                 / of_string OUTPUT_FILE_NAME)%path
                (outputs (mkBulkResult [12%positive] 1))].
Proof.
  split; [vm_compute; reflexivity|].
  apply (run_call_order working_dir (load_table table) resolve_in_place
           map_sources exec_echo persist_copy dumps_keys always_writable
           input_dirs inputs_mapping (AStr "out") (Some "run-1") state
           (Sample.run_batch inputs_mapping state).2
           (mkBulkResult [12%positive] 1)).
  vm_compute. reflexivity.
Defined.

Lemma resolve_dir_relative_root_repeats_witness :
  to_string (_resolve_dir (of_string "flow") (AStr "data")) = "flow/data"
  ∧ to_string (_resolve_dir (of_string "flow")
                 (APath (_resolve_dir (of_string "flow") (AStr "data"))))
    = "flow/flow/data"
  ∧ is_absolute (_resolve_dir (of_string "flow") (AStr "data")) = false
  ∧ parts (_resolve_dir (of_string "flow")
             (APath (_resolve_dir (of_string "flow") (AStr "data"))))
    = parts (of_string "flow") ++ parts (of_string "flow")
        ++ parts (as_path (AStr "data"))
  ∧ (parts (of_string "flow") ≠ [] →
     _resolve_dir (of_string "flow")
       (APath (_resolve_dir (of_string "flow") (AStr "data")))
     ≠ _resolve_dir (of_string "flow") (AStr "data")).
Proof.
  split; [reflexivity|]. split; [reflexivity|].
  apply (resolve_dir_relative_root_repeats (of_string "flow") (AStr "data"));
    reflexivity.
Defined.

Lemma resolve_image_flat_line_untouched_witness :
  _resolve_image resolve_in_place docs 20%positive
    (mkState (mkStore {[ 20%positive := [("text", VStr "hello"); ("n", VInt 3);
                                          ("ok", VBool true); ("none", VNone)] ]}
                objects) files [])
  = (Ok 20%positive,
     mkState (mkStore {[ 20%positive := [("text", VStr "hello"); ("n", VInt 3);
                                          ("ok", VBool true); ("none", VNone)] ]}
                objects) files []).
Proof.
  apply (resolve_image_flat_line_untouched resolve_in_place docs 20%positive _
           [("text", VStr "hello"); ("n", VInt 3); ("ok", VBool true);
            ("none", VNone)]).
  - reflexivity.
  - repeat constructor.
Defined.

Lemma after_docs_lines_resolved :
  lines_resolved resolve_in_place docs
    (call_load_data (load_table table) docs state).2 [10%positive] after_docs.
Proof.
  apply (for_lines_Ok_inv resolve_in_place docs [10%positive]).
  vm_compute. reflexivity.
Qed.

Lemma lines_resolved_keep_field_names_witness :
  ∃ d', rows (store after_docs) !! 10%positive = Some d'
    ∧ dict_keys d' = dict_keys doc_line.
Proof.
  apply (lines_resolved_keep_field_names resolve_in_place docs [10%positive]
           (call_load_data (load_table table) docs state).2 after_docs
           10%positive doc_line).
  - exact after_docs_lines_resolved.
  - reflexivity.
Defined.
